(** * Verification of the search scraper and the mail sender

    Shallow embedding of [PlaywrightF.py] (the search scraper) and of
    [Gmail_demo.py] (the mail sender).  Python values are modelled as
    follows: [str] as the [string] of its UTF-8 bytes, [int] as [Z], a
    result dict
    [{"title": t, "link": l}] as the record [SearchResult], the [set] of
    links already seen as a [gset string], a [list] as a [list].  Calls
    into the browser and desktop automation libraries are operations on an
    abstract world, threaded through a state and exception monad together
    with a trace of the calls made and the lines printed.  Durations are
    in milliseconds.  A library call returns or raises an instance of
    [Exception]; Ctrl-C is modelled where the script waits for it, at the
    prompt. *)

From Stdlib Require Import ZArith String Ascii List Lia DecimalString.
From stdpp Require Import base tactics option list gmap strings.

Local Open Scope string_scope.
Local Open Scope Z_scope.
Local Open Scope list_scope.

(** ** Python strings *)

Module PyStr.

(** Truth value of a [str]: only the empty string is falsy. *)
Definition truthy (s : string) : bool :=
  match s with
  | EmptyString => false
  | String _ _ => true
  end.

(** [x or ""] for an [Optional[str]] [x]. *)
Definition or_empty (x : option string) : string :=
  match x with
  | Some s => if truthy s then s else ""
  | None => ""
  end.

(** [sub in s]: substring test. *)
Fixpoint contains (sub s : string) : bool :=
  String.prefix sub s ||
  match s with
  | EmptyString => false
  | String _ s' => contains sub s'
  end.

(** The string of the given bytes. *)
Definition bytes (l : list nat) : string :=
  fold_right (λ n s, String (ascii_of_nat n) s) EmptyString l.

(** The characters [str.isspace()] accepts, which [str.strip()] removes,
    each in UTF-8: U+0009 to U+000D, U+001C to U+0020, U+0085, U+00A0,
    U+1680, U+2000 to U+200A, U+2028, U+2029, U+202F, U+205F, U+3000. *)
Definition whitespace : list string :=
  ((λ n, bytes [n]%nat) <$> [9; 10; 11; 12; 13; 28; 29; 30; 31; 32]%nat)
  ++ [bytes [194; 133]%nat; bytes [194; 160]%nat; bytes [225; 154; 128]%nat]
  ++ ((λ n, bytes [226; 128; n]%nat)
        <$> [128; 129; 130; 131; 132; 133; 134; 135; 136; 137; 138]%nat)
  ++ [bytes [226; 128; 168]%nat; bytes [226; 128; 169]%nat;
      bytes [226; 128; 175]%nat; bytes [226; 129; 159]%nat;
      bytes [227; 128; 128]%nat].

(** Is [s] one whitespace character? *)
Definition isspace (s : string) : bool :=
  existsb (String.eqb s) whitespace.

(** [s] without its first character, when that is whitespace. *)
Definition behead (s : string) : option string :=
  match s with
  | EmptyString => None
  | String c s1 =>
      if isspace (String c EmptyString) then Some s1 else
      match s1 with
      | EmptyString => None
      | String d s2 =>
          if isspace (String c (String d EmptyString)) then Some s2 else
          match s2 with
          | EmptyString => None
          | String e s3 =>
              if isspace (String c (String d (String e EmptyString)))
              then Some s3 else None
          end
      end
  end.

Fixpoint lstrip (s : string) : string :=
  match s with
  | EmptyString => EmptyString
  | String c s1 =>
      if isspace (String c EmptyString) then lstrip s1 else
      match s1 with
      | EmptyString => s
      | String d s2 =>
          if isspace (String c (String d EmptyString)) then lstrip s2 else
          match s2 with
          | EmptyString => s
          | String e s3 =>
              if isspace (String c (String d (String e EmptyString)))
              then lstrip s3 else s
          end
      end
  end.

(** From the end: what is left of the tail, with [c] in front, is dropped
    when it is one whitespace character. *)
Fixpoint rstrip (s : string) : string :=
  match s with
  | EmptyString => EmptyString
  | String c s' =>
      let t := rstrip s' in
      if isspace (String c t) then EmptyString else String c t
  end.

Definition strip (s : string) : string := rstrip (lstrip s).

(** [str(n)] for a non-negative [int]. *)
Definition of_nat (n : nat) : string := NilZero.string_of_uint (Nat.to_uint n).

End PyStr.

(** ** Search results *)

Record SearchResult := mkResult { title : string; link : string }.

(** ** The pure steps of [main] *)

(** Lines 201-204: merge of the News results into the primary ones.
    [existing_links] is computed once, before the loop. *)
Definition existing_links (results : list SearchResult) : gset string :=
  list_to_set (link <$> results).

Definition merge_step (existing : gset string)
    (results : list SearchResult) (r : SearchResult) : list SearchResult :=
  if bool_decide (link r ∉ existing) then results ++ [r] else results.

Definition merge_news (results news_results : list SearchResult)
    : list SearchResult :=
  let existing := existing_links results in
  foldl (merge_step existing) results news_results.

(** Lines 207-213: the final deduplication loop.  The loop state is the
    pair of [unique] and [seen]. *)
Definition dedupe_step (st : list SearchResult * gset string)
    (r : SearchResult) : list SearchResult * gset string :=
  let '(unique, seen) := st in
  let href := link r in
  if PyStr.truthy href && bool_decide (href ∉ seen)
  then (unique ++ [r], {[href]} ∪ seen)
  else (unique, seen).

Definition final_dedupe (results : list SearchResult) : list SearchResult :=
  fst (foldl dedupe_step ([], ∅) results).

(** ** Exceptions *)

(** Instances of [Exception]: the browser library's [TimeoutError], and
    every other one, by class name and message. *)
Inductive exception :=
| PWTimeoutError (msg : string)
| Error (cls msg : string).

(** Instances of [BaseException]. *)
Inductive raised :=
| Exc (e : exception)
| KeyboardInterrupt
| SystemExit (code : Z).

(** [str(e)] *)
Definition exception_str (e : exception) : string :=
  match e with
  | PWTimeoutError msg => msg
  | Error _ msg => msg
  end.

(** ** The automation libraries *)

(** Locators are descriptions of elements, built without touching the page. *)
Inductive locator :=
| Locator (sel : string)              (* page.locator(sel) *)
| Nth (l : locator) (i : Z)           (* l.nth(i) *)
| Sub (l : locator) (sel : string)    (* l.locator(sel) *)
| First (l : locator).                (* l.first *)

(** Calls into the libraries.  The scraper opens one context and one page,
    so the handles are left implicit.  Timeouts are in milliseconds. *)
Inductive call :=
(* playwright.sync_api *)
| SyncPlaywrightEnter
| SyncPlaywrightExit
| LaunchPersistentContext (user_data_dir : string) (headless : bool)
    (args : list string) (viewport : Z * Z)
| NewPage
| SetExtraHttpHeaders (name value : string)
| Goto (url : string) (timeout : Z)
| Url
| Count (l : locator)
| InnerText (l : locator)
| GetAttribute (l : locator) (name : string)
| Click (l : locator) (timeout : option Z)
| Fill (l : locator) (text : string) (timeout : Z)
| PageFill (sel text : string)
| KeyboardPress (key : string)
| WaitForSelector (sel : string) (timeout : Z)
| WaitForLoadState (st : string) (timeout : Z)
| ContextClose
(* webbrowser and pyautogui *)
| WebbrowserOpen (url : string)
| GuiClick (x y : Z)
| GuiTypewrite (text : string)
| GuiPress (key : string)
| GuiHotkey (keys : list string).

Definition answer (c : call) : Type :=
  match c with
  | Url => option string
  | Count _ => Z
  | InnerText _ => string
  | GetAttribute _ _ => option string
  | WebbrowserOpen _ => bool
  | _ => unit
  end.

(** What [input(prompt)] does: a line, end of input, or Ctrl-C. *)
Inductive input_outcome :=
| Line (s : string)
| EndOfFile
| Interrupt.

(** Module attributes of [pyautogui] the mail sender sets. *)
Inductive setting :=
| FAILSAFE (b : bool)
| PAUSE (ms : Z).

(** The world outside the script: how it answers a call, a prompt, the
    passing of time and a setting.  A library call returns or raises an
    [Exception]; only the prompt can be interrupted.  A Ctrl-C that
    arrives while a library call or a sleep blocks is outside this model:
    the properties below are about what the calls themselves do. *)
Record Runtime (W : Type) := {
  respond : ∀ c : call, W → W * (exception + answer c);
  read_line : string → W → W * input_outcome;
  sleep_ms : Z → W → W;
  assign : setting → W → W
}.
Arguments respond {W}.
Arguments read_line {W}.
Arguments sleep_ms {W}.
Arguments assign {W}.

Inductive event :=
| Called (c : call)
| Asked (prompt : string) (o : input_outcome)
| Slept (ms : Z)
| Assigned (x : setting).

(** ** The state and exception monad *)

Record state (W : Type) := mkState {
  world : W;
  trace : list event;
  stdout : list string
}.
Arguments mkState {W}.
Arguments world {W}.
Arguments trace {W}.
Arguments stdout {W}.

Inductive outcome (A : Type) :=
| Ok (a : A)
| Raise (e : raised).
Arguments Ok {A}.
Arguments Raise {A}.

Definition M (W A : Type) : Type := state W → state W * outcome A.

#[global] Instance M_ret {W} : MRet (M W) := λ A a s, (s, Ok a).
#[global] Instance M_bind {W} : MBind (M W) := λ A B f m s,
  match m s with
  | (s', Ok a) => f a s'
  | (s', Raise e) => (s', Raise e)
  end.

Definition raise {W A} (e : raised) : M W A := λ s, (s, Raise e).

(** [try: m  except Exception as e: h e] *)
Definition try_except_Exception {W A} (m : M W A) (h : exception → M W A)
    : M W A := λ s,
  match m s with
  | (s', Raise (Exc e)) => h e s'
  | r => r
  end.

(** [try: m  except KeyboardInterrupt: h] *)
Definition try_except_KeyboardInterrupt {W A} (m : M W A) (h : M W A)
    : M W A := λ s,
  match m s with
  | (s', Raise KeyboardInterrupt) => h s'
  | r => r
  end.

(** [body], then [leave] however [body] ended; an exception of [body]
    is raised again after [leave] returned. *)
Definition ensure {W A} (body : M W A) (leave : M W unit) : M W A := λ s,
  match body s with
  | (s1, Ok a) => (leave ;; mret a) s1
  | (s1, Raise e) => (leave ;; raise e) s1
  end.

(** [with cm: body], for a context manager that does not swallow
    exceptions. *)
Definition with_context {W A} (enter leave : M W unit) (body : M W A)
    : M W A :=
  enter ;; ensure body leave.

(** [for x in xs: acc = body acc x] *)
Fixpoint for_each {W X S} (xs : list X) (body : S → X → M W S) (acc : S)
    : M W S :=
  match xs with
  | [] => mret acc
  | x :: xs' => acc' ← body acc x; for_each xs' body acc'
  end.

(** [range(n)] *)
Definition range (n : Z) : list Z := Z.of_nat <$> seq 0 (Z.to_nat n).

(** [len(l)] *)
Definition len {A} (l : list A) : Z := Z.of_nat (length l).

(** What the interpreter reports to the operating system when the script
    ends: 0 after a normal end, the code of a [SystemExit], 1 after any
    other uncaught exception (130 for an uncaught [KeyboardInterrupt]). *)
Definition exit_status {A} (r : outcome A) : Z :=
  match r with
  | Ok _ => 0
  | Raise (SystemExit code) => code
  | Raise KeyboardInterrupt => 130
  | Raise (Exc _) => 1
  end.

Section Primitives.
Context {W : Type} (rt : Runtime W).

Definition perform (c : call) : M W (answer c) := λ s,
  let '(w, r) := respond rt c (world s) in
  (mkState w (trace s ++ [Called c]) (stdout s),
   match r with
   | inl e => Raise (Exc e)
   | inr a => Ok a
   end).

(** [print(line)] *)
Definition print (line : string) : M W unit := λ s,
  (mkState (world s) (trace s) (stdout s ++ [line]), Ok ()).

(** [time.sleep] *)
Definition sleep (ms : Z) : M W unit := λ s,
  (mkState (sleep_ms rt ms (world s)) (trace s ++ [Slept ms]) (stdout s), Ok ()).

(** [input(prompt)] *)
Definition input (prompt : string) : M W string := λ s,
  let '(w, o) := read_line rt prompt (world s) in
  (mkState w (trace s ++ [Asked prompt o]) (stdout s),
   match o with
   | Line l => Ok l
   | EndOfFile => Raise (Exc (Error "EOFError" "EOF when reading a line"))
   | Interrupt => Raise KeyboardInterrupt
   end).

(** [sys.exit(code)] *)
Definition sys_exit {A} (code : Z) : M W A := raise (SystemExit code).

(** [pyautogui.X = v] *)
Definition set_attr (x : setting) : M W unit := λ s,
  (mkState (assign rt x (world s)) (trace s ++ [Assigned x]) (stdout s), Ok ()).

End Primitives.

(** ** The search scraper, [PlaywrightF.py] *)

Definition nl : string := String (ascii_of_nat 10) EmptyString.

(** [s * n] *)
Fixpoint str_mul (s : string) (n : nat) : string :=
  match n with
  | O => EmptyString
  | S n' => s +:+ str_mul s n'
  end.

Definition SEARCH_QUERY : string := "SA vs Aus update".
Definition USER_DATA_DIR : string := "playwright_user_profile".
Definition HEADLESS : bool := false.
Definition MAX_RETRIES : Z := 2.
Definition dquote : string := String (ascii_of_nat 34) EmptyString.
Definition SEARCH_INPUT_XPATH : string :=
  "xpath=//*[@id=" +:+ dquote +:+ "APjFqb" +:+ dquote +:+ "]".

Definition sorry_marker : string := "/sorry/".
Definition robot_phrase : string := "text=I'm not a robot".
Definition traffic_phrase : string :=
  "text=Our systems have detected unusual traffic".

(** How an iteration of a loop with [break], [continue] and [return] ends. *)
Inductive flow :=
| Continue
| Break
| Return.

Section Scraper.
Context {W : Type} (rt : Runtime W).

Definition is_captcha_page : M W bool :=
  try_except_Exception
    (u ← perform rt Url;
     let url := PyStr.or_empty u in
     if PyStr.contains sorry_marker url then mret true else
     c1 ← perform rt (Count (Locator robot_phrase));
     if 0 <? c1 then mret true else
     c2 ← perform rt (Count (Locator traffic_phrase));
     if 0 <? c2 then mret true else
     mret false)
    (λ _, mret false).

Definition PROMPT : string :=
  "Press Enter after solving the CAPTCHA to continue the script...".

Definition prompt_manual_solve : M W unit :=
  print (nl +:+ str_mul "=" 60) ;;
  print "⚠️  Google presented a CAPTCHA / anti-bot page." ;;
  print "→ The browser window is open. Please solve the CAPTCHA manually in the browser." ;;
  print "→ After you solve the CAPTCHA, come back to this terminal and press Enter to continue." ;;
  print (str_mul "=" 60 +:+ nl) ;;
  try_except_KeyboardInterrupt
    (input rt PROMPT ;;
     mret ())
    (print (nl +:+ "Interrupted by user. Exiting.") ;;
     sys_exit 1).

Definition safe_wait_for_selector (selector : string) (timeout : Z)
    : M W bool :=
  try_except_Exception
    (perform rt (WaitForSelector selector timeout) ;;
     mret true)
    (λ e, match e with
          | PWTimeoutError _ => mret false
          | _ => mret false
          end).

(** Lines 66-78: one element of a matching locator. *)
Definition collect_item (loc : locator) (results : list SearchResult)
    (i : Z) : M W (list SearchResult) :=
  try_except_Exception
    (let a := Nth loc i in
     title ← try_except_Exception
               (t ← perform rt (InnerText (Sub a "h3")); mret (PyStr.strip t))
               (λ _, t ← perform rt (InnerText a); mret (PyStr.strip t));
     h ← perform rt (GetAttribute a "href");
     let href := PyStr.or_empty h in
     if PyStr.truthy title && PyStr.truthy href
     then mret (results ++ [mkResult title href])
     else mret results)
    (λ _, mret results).

(** Lines 60-90: one attempt at a selector.  The handler of line 84 sees
    the list as it was when the attempt began: only [loc.count()] can raise
    into it, before anything is appended, since every element is handled
    under the [try] of line 66. *)
Definition collect_attempt (sel : string) (max_items : Z)
    (results : list SearchResult) (attempt : Z)
    : M W (flow * list SearchResult) :=
  try_except_Exception
    (found ← safe_wait_for_selector sel 7000;
     if negb found then mret (Break, results) else
     let loc := Locator sel in
     count ← perform rt (Count loc);
     results' ← for_each (range (Z.min count (max_items - len results)))
                  (collect_item loc) results;
     if len results' >=? max_items
     then mret (Return, results')
     else mret (Break, results'))
    (λ e, if attempt + 1 <? MAX_RETRIES
          then sleep rt 800 ;; mret (Continue, results)
          else mret (Break, results)).

(** Lines 59-90: the attempts at one selector; the flag says whether the
    function returned from inside the loop. *)
Fixpoint collect_attempts (sel : string) (max_items : Z)
    (results : list SearchResult) (attempts : list Z)
    : M W (bool * list SearchResult) :=
  match attempts with
  | [] => mret (false, results)
  | attempt :: rest =>
      '(fl, results') ← collect_attempt sel max_items results attempt;
      match fl with
      | Continue => collect_attempts sel max_items results' rest
      | Break => mret (false, results')
      | Return => mret (true, results')
      end
  end.

Fixpoint collect_selectors (selector_list : list string) (max_items : Z)
    (results : list SearchResult) : M W (list SearchResult) :=
  match selector_list with
  | [] => mret results
  | sel :: rest =>
      '(returned, results') ←
        collect_attempts sel max_items results (range MAX_RETRIES);
      if (returned : bool) then mret results'
      else collect_selectors rest max_items results'
  end.

Definition collect_search_results (selector_list : list string)
    (max_items : Z) : M W (list SearchResult) :=
  collect_selectors selector_list max_items [].

Definition news_tab : locator :=
  Locator "a:has-text('News'), a[href*='tbm=nws']".

Definition try_click_news_tab : M W bool :=
  try_except_Exception
    (n ← perform rt (Count news_tab);
     if 0 <? n then
       perform rt (Click (First news_tab) None) ;;
       perform rt (WaitForLoadState "networkidle" 10000) ;;
       sleep rt 1000 ;;
       mret true
     else mret false)
    (λ _, mret false).

Definition USER_AGENT : string :=
  "Mozilla/5.0 (Windows NT 10.0; Win64; x64) AppleWebKit/537.36 (KHTML, like Gecko) Chrome/117 Safari/537.36".

(** [try: page.wait_for_load_state("networkidle", timeout=15000)
     except Exception: pass] *)
Definition settle : M W unit :=
  try_except_Exception
    (perform rt (WaitForLoadState "networkidle" 15000))
    (λ _, mret ()).

(** Lines 129-135 and 172-177. *)
Definition captcha_gate : M W unit :=
  captcha ← is_captcha_page;
  if (captcha : bool) then prompt_manual_solve ;; settle else mret ().

(** Lines 138-162; [false] when [main] closes the context and returns. *)
Definition submit_query : M W bool :=
  found ← safe_wait_for_selector SEARCH_INPUT_XPATH 6000;
  if (found : bool) then
    print "Typing query into XPath search input..." ;;
    try_except_Exception
      (let box := Locator SEARCH_INPUT_XPATH in
       perform rt (Click box (Some 5000)) ;;
       perform rt (Fill box SEARCH_QUERY 5000) ;;
       perform rt (KeyboardPress "Enter") ;;
       mret true)
      (λ e,
         print ("Warning: Failed to type via XPath input, falling back. Error: "
                +:+ exception_str e) ;;
         try_except_Exception
           (perform rt (PageFill "input[name='q']" SEARCH_QUERY) ;;
            perform rt (KeyboardPress "Enter") ;;
            mret true)
           (λ e2,
              print ("Failed fallback search input: " +:+ exception_str e2) ;;
              perform rt ContextClose ;;
              mret false))
  else
    print "XPath input not found; using generic search box fallback." ;;
    try_except_Exception
      (perform rt (PageFill "input[name='q']" SEARCH_QUERY) ;;
       perform rt (KeyboardPress "Enter") ;;
       mret true)
      (λ e,
         print ("Search input failed: " +:+ exception_str e) ;;
         perform rt ContextClose ;;
         mret false).

Definition selectors : list string :=
  [ "div.yuRUbf > a"; "div.g a"; "h3 > a"; "article h3 a"; "a[href^='http']" ].

Definition news_selectors : list string :=
  [ "article h3 a"; "div.SoaBEf a"; "div.NiLAwe a" ].

(** Lines 191-204. *)
Definition augment (results : list SearchResult) : M W (list SearchResult) :=
  if len results <? 6 then
    print "Trying the 'News' tab (if available)..." ;;
    clicked ← try_click_news_tab;
    if (clicked : bool) then
      news_results ← collect_search_results news_selectors 12;
      mret (merge_news results news_results)
    else mret results
  else mret results.

(** Lines 223-225: one line of the numbered list; [i] counts from 1. *)
Definition report_item (i : nat) (r : SearchResult) : M W nat :=
  print (PyStr.of_nat i +:+ ". " +:+ title r) ;;
  print ("   🔗 " +:+ link r +:+ nl) ;;
  mret (S i).

(** Lines 215-225. *)
Definition report (unique : list SearchResult) : M W unit :=
  match unique with
  | [] =>
      print (nl +:+ "⚠️ No results collected. Possible causes:") ;;
      print "- You may still be on a CAPTCHA page (check browser window)." ;;
      print "- Google changed its markup; selectors need an update." ;;
      print ("- Network or region-based blocking." +:+ nl) ;;
      print "If you see a CAPTCHA in the browser, please solve it and re-run the script or press Enter when prompted."
  | _ =>
      print (nl +:+ "✅ Found " +:+ PyStr.of_nat (length unique)
             +:+ " unique results:" +:+ nl) ;;
      for_each unique report_item 1%nat ;;
      mret ()
  end.

(** The body of the [with] block of [main]. *)
Definition main_body : M W unit :=
  print ("Launching Chromium with persistent profile at ./" +:+ USER_DATA_DIR
         +:+ " (headful)...") ;;
  perform rt (LaunchPersistentContext USER_DATA_DIR HEADLESS
                ["--start-maximized"] (1366, 768)) ;;
  perform rt NewPage ;;
  perform rt (SetExtraHttpHeaders "User-Agent" USER_AGENT) ;;
  try_except_Exception
    (print "Opening https://www.google.com ..." ;;
     perform rt (Goto "https://www.google.com" 30000))
    (λ e, print ("Initial navigation error (continuing): "
                 +:+ exception_str e)) ;;
  captcha_gate ;;
  submitted ← submit_query;
  if negb submitted then mret () else
  settle ;;
  sleep rt 1000 ;;
  captcha_gate ;;
  print "Collecting search results (safe locators)..." ;;
  results ← collect_search_results selectors 12;
  results ← augment results;
  let unique := final_dedupe results in
  report unique ;;
  print "Closing context (profile kept). Next run will reuse same profile to reduce future CAPTCHAs." ;;
  perform rt ContextClose.

Definition main : M W unit :=
  with_context (perform rt SyncPlaywrightEnter) (perform rt SyncPlaywrightExit)
    main_body.

End Scraper.

(** ** The mail sender, [Gmail_demo.py] *)

Section MailSender.
Context {W : Type} (rt : Runtime W).

Definition success_line : string := "✅ Email sent successfully!".

Definition mail_url : string := "https://mail.google.com/".
Definition recipient : string := "kishoreicat88@gmail.com".
Definition subject : string := "Automated Mail from PyAutoGUI".

Definition mail_body : string :=
  "Hello," +:+ nl +:+ nl
  +:+ "This is a test email sent using PyAutoGUI automation." +:+ nl +:+ nl
  +:+ "Regards," +:+ nl +:+ "Python Script".

Definition gmail_demo : M W unit :=
  set_attr rt (FAILSAFE true) ;;
  set_attr rt (PAUSE 400) ;;
  perform rt (WebbrowserOpen mail_url) ;;
  sleep rt 8000 ;;
  perform rt (GuiClick 48 179) ;;
  sleep rt 8000 ;;
  perform rt (GuiTypewrite recipient) ;;
  perform rt (GuiPress "enter") ;;
  sleep rt 4000 ;;
  perform rt (GuiPress "tab") ;;
  sleep rt 8000 ;;
  perform rt (GuiTypewrite subject) ;;
  perform rt (GuiPress "tab") ;;
  sleep rt 8000 ;;
  perform rt (GuiTypewrite mail_body) ;;
  sleep rt 8000 ;;
  perform rt (GuiHotkey ["ctrl"; "enter"]) ;;
  print success_line.

End MailSender.

(** ** Mock pages and desktops

    A stateless world that answers every call from a fixed table; calls
    without an entry return at once. *)

Record mock := mkMock {
  mock_url : exception + option string;
  mock_count : locator → exception + Z;
  mock_inner_text : locator → exception + string;
  mock_attribute : locator → string → exception + option string;
  mock_gui_click : exception + unit;
  mock_input : input_outcome
}.

Definition mock_respond (m : mock) (c : call) (w : unit)
    : unit * (exception + answer c) :=
  (w, match c return exception + answer c with
      | Url => mock_url m
      | Count l => mock_count m l
      | InnerText l => mock_inner_text m l
      | GetAttribute l name => mock_attribute m l name
      | GuiClick _ _ => mock_gui_click m
      | WebbrowserOpen _ => inr true
      | _ => inr ()
      end).

Definition mock_runtime (m : mock) : Runtime unit := {|
  respond := mock_respond m;
  read_line := λ _ w, (w, mock_input m);
  sleep_ms := λ _ w, w;
  assign := λ _ w, w
|}.

Definition initial : state unit := mkState () [] [].

(** An unrelated page: no URL marker, no element matches anything. *)
Definition blank_page : mock := {|
  mock_url := inr (Some "https://www.google.com/");
  mock_count := λ _, inr 0;
  mock_inner_text := λ _, inr EmptyString;
  mock_attribute := λ _ _, inr None;
  mock_gui_click := inr ();
  mock_input := Line EmptyString
|}.

(** A result page on which every selector matches twenty anchors, each
    with a heading and an address. *)
Definition busy_page : mock := {|
  mock_url := inr (Some "https://www.google.com/search?q=SA+vs+Aus+update");
  mock_count := λ _, inr 20;
  mock_inner_text := λ _, inr "  Match report ";
  mock_attribute := λ _ _, inr (Some "https://example.org/report");
  mock_gui_click := inr ();
  mock_input := Line EmptyString
|}.

(** A challenge page served under the challenge path; the operator
    answers the prompt with Ctrl-C. *)
Definition sorry_page : mock := {|
  mock_url := inr (Some "https://www.google.com/sorry/index?continue=x");
  mock_count := λ _, inr 0;
  mock_inner_text := λ _, inr EmptyString;
  mock_attribute := λ _ _, inr None;
  mock_gui_click := inr ();
  mock_input := Interrupt
|}.

Definition context_destroyed : exception :=
  Error "Error" "Execution context was destroyed".

(** The count a page reports: [n] for the locator [sel], none elsewhere. *)
Definition count_of (sel : string) (n : exception + Z) (l : locator)
    : exception + Z :=
  match l with
  | Locator sel' => if String.eqb sel' sel then n else inr 0
  | _ => inr 0
  end.

(** A search page with the given URL and element counts, and nothing else. *)
Definition search_page (url : exception + option string)
    (count : locator → exception + Z) : mock := {|
  mock_url := url;
  mock_count := count;
  mock_inner_text := λ _, inr EmptyString;
  mock_attribute := λ _ _, inr None;
  mock_gui_click := inr ();
  mock_input := Line EmptyString
|}.

Definition search_url : option string :=
  Some "https://www.google.com/search?q=x".

(** Challenge pages recognised by their text only. *)
Definition robot_page : mock :=
  search_page (inr search_url) (count_of robot_phrase (inr 1)).

Definition traffic_page : mock :=
  search_page (inr search_url) (count_of traffic_phrase (inr 2)).

(** Pages that went away: the URL, every lookup, or the lookup of the
    second phrase raises. *)
Definition closed_page : mock :=
  search_page (inl context_destroyed) (λ _, inr 0).

Definition detached_page : mock :=
  search_page (inr search_url) (λ _, inl context_destroyed).

Definition half_detached_page : mock :=
  search_page (inr search_url)
    (count_of traffic_phrase (inl context_destroyed)).

(** A result page whose anchors have a title of no-break spaces only. *)
Definition nbsp_page : mock := {|
  mock_url := inr search_url;
  mock_count := λ _, inr 2;
  mock_inner_text := λ _, inr (PyStr.bytes [194; 160; 32; 194; 160]%nat);
  mock_attribute := λ _ _, inr (Some "https://example.org/report");
  mock_gui_click := inr ();
  mock_input := Line EmptyString
|}.

(** A result page whose elements vanish when they are read. *)
Definition unreadable_page : mock := {|
  mock_url := inr search_url;
  mock_count := λ _, inr 2;
  mock_inner_text := λ _, inl context_destroyed;
  mock_attribute := λ _ _, inl context_destroyed;
  mock_gui_click := inr ();
  mock_input := Line EmptyString
|}.

(** A desktop on which the pointer sits in a corner of the screen: the
    fail-safe check of [pyautogui] raises. *)
Definition failsafe_desktop : mock := {|
  mock_url := inr None;
  mock_count := λ _, inr 0;
  mock_inner_text := λ _, inr EmptyString;
  mock_attribute := λ _ _, inr None;
  mock_gui_click :=
    inl (Error "FailSafeException"
           "PyAutoGUI fail-safe triggered from mouse moving to a corner of the screen.");
  mock_input := Line EmptyString
|}.

(** ** Specification vocabulary *)

(** The events a computation added to the trace. *)
Definition new_events {W} (s s' : state W) : list event :=
  drop (length (trace s)) (trace s').

(** The lines a computation printed. *)
Definition new_lines {W} (s s' : state W) : list string :=
  drop (length (stdout s)) (stdout s').

Definition is_interrupt (ev : event) : bool :=
  match ev with
  | Asked _ Interrupt => true
  | _ => false
  end.

(** Was a prompt interrupted? *)
Definition interrupted (l : list event) : bool := existsb is_interrupt l.

(** How a computation may end, from the most to the least restricted:
    it returns; or it may also raise an [Exception]; or it may also leave
    through [sys.exit(1)], which it does exactly when a prompt was
    interrupted. *)
Inductive level :=
| Quiet
| Fallible
| Exiting.

Definition allowed (lv : level) (e : raised) (l : list event) : Prop :=
  match lv, e with
  | Quiet, _ => False
  | _, Exc _ => interrupted l = false
  | Exiting, SystemExit code => interrupted l = true ∧ code = 1
  | _, _ => False
  end.

Definition level_le (lv lv' : level) : bool :=
  match lv, lv' with
  | Quiet, _ => true
  | Fallible, Quiet => false
  | Fallible, _ => true
  | Exiting, Exiting => true
  | Exiting, _ => false
  end.

Definition triple {W A} (lv : level) (m : M W A) (Q : A → Prop) : Prop :=
  ∀ s, ∃ l, trace (m s).1 = trace s ++ l ∧
    match (m s).2 with
    | Ok a => interrupted l = false ∧ Q a
    | Raise e => allowed lv e l
    end.

(** Everything the mail sender does when no call raises, in order. *)
Definition gmail_events : list event :=
  [ Assigned (FAILSAFE true); Assigned (PAUSE 400);
    Called (WebbrowserOpen mail_url); Slept 8000;
    Called (GuiClick 48 179); Slept 8000;
    Called (GuiTypewrite recipient);
    Called (GuiPress "enter"); Slept 4000;
    Called (GuiPress "tab"); Slept 8000;
    Called (GuiTypewrite subject);
    Called (GuiPress "tab"); Slept 8000;
    Called (GuiTypewrite mail_body); Slept 8000;
    Called (GuiHotkey ["ctrl"; "enter"]) ].

(** The steps of a script replayed against the world: the position and
    the exception of the first library call that raises, if one does. *)
Fixpoint first_raise {W} (rt : Runtime W) (w : W) (script : list event)
    : option (nat * exception) :=
  match script with
  | [] => None
  | ev :: rest =>
      let later w' :=
        match first_raise rt w' rest with
        | Some (k, e) => Some (S k, e)
        | None => None
        end in
      match ev with
      | Called c =>
          match respond rt c w with
          | (_, inl e) => Some (0%nat, e)
          | (w', inr _) => later w'
          end
      | Slept ms => later (sleep_ms rt ms w)
      | Assigned x => later (assign rt x w)
      | Asked prompt _ => later (read_line rt prompt w).1
      end
  end.

(** The final deduplication loop, started from any set of seen links. *)
Fixpoint dedupe_from (seen : gset string) (results : list SearchResult)
    : list SearchResult :=
  match results with
  | [] => []
  | r :: rest =>
      if PyStr.truthy (link r) && bool_decide (link r ∉ seen)
      then r :: dedupe_from ({[link r]} ∪ seen) rest
      else dedupe_from seen rest
  end.

(** A record as the collector appends it. *)
Definition well_formed (r : SearchResult) : Prop :=
  title r ≠ EmptyString ∧ link r ≠ EmptyString.

(** What one element of a locator may do to the list. *)
Definition at_most_one_more (results rs : list SearchResult) : Prop :=
  rs = results ∨ ∃ r, rs = results ++ [r] ∧ well_formed r.

(** What holds of the list all along a call with capacity [max_items]. *)
Definition within (max_items : Z) (results : list SearchResult) : Prop :=
  Forall well_formed results ∧ len results ≤ Z.max 0 max_items.

(** What the merge would have to satisfy for no appended entry to repeat a
    link present before it in the merged list. *)
Definition merge_leaves_no_duplicate (results news : list SearchResult)
    : Prop :=
  ∀ pre r post,
    merge_news results news = pre ++ r :: post →
    (length results ≤ length pre)%nat →
    link r ∉ link <$> pre.

(** ** Vocabulary for the further properties *)

(** A computation that returns, printing nothing: [Φ] relates what it
    returns to the events it added to the trace. *)
Definition yields {W A} (m : M W A) (Φ : A → list event → Prop) : Prop :=
  ∀ s, ∃ s' a l,
    m s = (s', Ok a) ∧ trace s' = trace s ++ l ∧ stdout s' = stdout s ∧ Φ a l.

(** Reading the text or an attribute of an element. *)
Definition is_element_read (ev : event) : bool :=
  match ev with
  | Called (InnerText _) | Called (GetAttribute _ _) => true
  | _ => false
  end.

(** A title without surrounding whitespace. *)
Definition stripped (r : SearchResult) : Prop :=
  PyStr.strip (title r) = title r.

(** Reads of elements only. *)
Definition element_reads (l : list event) : Prop :=
  Forall (λ ev, is_element_read ev = true) l.

(** The events of one attempt at a selector: the wait alone, or the wait,
    the count and reads of the elements counted. *)
Definition attempt_events (sel : string) (l : list event) : Prop :=
  l = [Called (WaitForSelector sel 7000)]
  ∨ ∃ reads,
      element_reads reads
      ∧ l = Called (WaitForSelector sel 7000)
            :: Called (Count (Locator sel)) :: reads.

(** The events of an attempt that is to be repeated: the count raised, and
    the collector slept 0.8 s. *)
Definition failed_attempt (sel : string) : list event :=
  [ Called (WaitForSelector sel 7000); Called (Count (Locator sel));
    Slept 800 ].

(** All the events for one selector: one attempt, or a failed attempt and
    a second one. *)
Definition selector_events (sel : string) (l : list event) : Prop :=
  attempt_events sel l
  ∨ ∃ second, attempt_events sel second ∧ l = failed_attempt sel ++ second.

(** What one attempt at [sel] yields: the records it added have stripped
    titles, and its events fit the way it ends. *)
Definition attempt_yields (sel : string) (max_items : Z)
    (results : list SearchResult) (attempt : Z)
    (out : flow * list SearchResult) (l : list event) : Prop :=
  (∃ added, out.2 = results ++ added ∧ Forall stripped added)
  ∧ match out.1 with
    | Continue =>
        l = failed_attempt sel ∧ out.2 = results
        ∧ (attempt + 1 <? MAX_RETRIES) = true
    | Break => attempt_events sel l
    | Return => attempt_events sel l ∧ max_items ≤ len out.2
    end.

(** What the collector yields from [results] on: the selectors it tried
    are the first ones of the list, all of them unless the capacity was
    reached, and its events are theirs, in order. *)
Definition selectors_yield (selector_list : list string) (max_items : Z)
    (results rs : list SearchResult) (l : list event) : Prop :=
  (∃ added, rs = results ++ added ∧ Forall stripped added)
  ∧ ∃ tried blocks,
      tried `prefix_of` selector_list
      ∧ Forall2 selector_events tried blocks
      ∧ l = concat blocks
      ∧ (tried = selector_list ∨ max_items ≤ len rs).

(** A page on which no selector ever appears: every wait times out. *)
Definition never_appearing (m : mock) : Runtime unit := {|
  respond := λ c w,
    match c as c0 return unit * (exception + answer c0) with
    | WaitForSelector _ _ => (w, inl (PWTimeoutError "Timeout 7000ms exceeded."))
    | c0 => mock_respond m c0 w
    end;
  read_line := λ _ w, (w, mock_input m);
  sleep_ms := λ _ w, w;
  assign := λ _ w, w
|}.

(** The five lines [prompt_manual_solve] prints before it waits. *)
Definition banner : list string :=
  [ nl +:+ str_mul "=" 60;
    "⚠️  Google presented a CAPTCHA / anti-bot page.";
    "→ The browser window is open. Please solve the CAPTCHA manually in the browser.";
    "→ After you solve the CAPTCHA, come back to this terminal and press Enter to continue.";
    str_mul "=" 60 +:+ nl ].

(** The calls [try_click_news_tab] makes when it opens the tab. *)
Definition news_tab_opened : list event :=
  [ Called (Count news_tab);
    Called (Click (First news_tab) None);
    Called (WaitForLoadState "networkidle" 10000);
    Slept 1000 ].

(** The calls [is_captcha_page] makes when nothing stops it early. *)
Definition full_inspection : list event :=
  [ Called Url;
    Called (Count (Locator robot_phrase));
    Called (Count (Locator traffic_phrase)) ].

(** A page with a News tab. *)
Definition news_page : mock :=
  search_page (inr search_url) (λ _, inr 1).

(** A terminal whose input is closed. *)
Definition closed_input (m : mock) : mock := {|
  mock_url := mock_url m;
  mock_count := mock_count m;
  mock_inner_text := mock_inner_text m;
  mock_attribute := mock_attribute m;
  mock_gui_click := mock_gui_click m;
  mock_input := EndOfFile
|}.

(** The lines of [report]. *)
Definition no_results_lines : list string :=
  [ nl +:+ "⚠️ No results collected. Possible causes:";
    "- You may still be on a CAPTCHA page (check browser window).";
    "- Google changed its markup; selectors need an update.";
    "- Network or region-based blocking." +:+ nl;
    "If you see a CAPTCHA in the browser, please solve it and re-run the script or press Enter when prompted." ].

Definition found_header (n : nat) : string :=
  nl +:+ "✅ Found " +:+ PyStr.of_nat n +:+ " unique results:" +:+ nl.

Definition title_line (i : nat) (r : SearchResult) : string :=
  PyStr.of_nat i +:+ ". " +:+ title r.

Definition link_line (r : SearchResult) : string :=
  "   🔗 " +:+ link r +:+ nl.

(** The numbered list, counting from [i]. *)
Fixpoint listing (i : nat) (unique : list SearchResult) : list string :=
  match unique with
  | [] => []
  | r :: rest => title_line i r :: link_line r :: listing (S i) rest
  end.

(** A computation that extends the trace by some events; [Φ] relates them
    to the way it ends. *)
Definition traced {W A} (m : M W A) (Φ : outcome A → list event → Prop)
    : Prop :=
  ∀ s, ∃ l, trace (m s).1 = trace s ++ l ∧ Φ (m s).2 l.

(** After a normal end, the last call was [context.close()]. *)
Definition closed_last {A} (r : outcome A) (l : list event) : Prop :=
  (∃ a, r = Ok a) → ∃ l', l = l' ++ [Called ContextClose].

(** A browser in which new pages cannot be opened. *)
Definition no_new_page (m : mock) : Runtime unit := {|
  respond := λ c w,
    match c as c0 return unit * (exception + answer c0) with
    | NewPage => (w, inl (Error "Error" "Target closed"))
    | c0 => mock_respond m c0 w
    end;
  read_line := λ _ w, (w, mock_input m);
  sleep_ms := λ _ w, w;
  assign := λ _ w, w
|}.

(** * Properties *)

(** ** The deduplicator and the merge *)

Section Deduplicator.
Implicit Types (r : SearchResult) (results : list SearchResult).
Implicit Types (seen : gset string) (l : string).

Lemma truthy_nonempty l : PyStr.truthy l = true ↔ l ≠ EmptyString.
Proof. destruct l; simpl; split; congruence. Qed.

Lemma dedupe_loop results : ∀ unique seen,
  (foldl dedupe_step (unique, seen) results).1
  = unique ++ dedupe_from seen results.
Proof.
  induction results as [|r rest IH]; intros unique seen; simpl.
  - by rewrite app_nil_r.
  - destruct (PyStr.truthy (link r) && bool_decide (link r ∉ seen)).
    + rewrite IH, <- app_assoc. done.
    + apply IH.
Qed.

Lemma final_dedupe_from_empty results :
  final_dedupe results = dedupe_from ∅ results.
Proof. unfold final_dedupe. apply (dedupe_loop results [] ∅). Qed.

Lemma dedupe_from_sublist results : ∀ seen,
  dedupe_from seen results `sublist_of` results.
Proof.
  induction results as [|r rest IH]; intros seen; simpl.
  - constructor.
  - destruct (_ && _); [apply sublist_skip | apply sublist_cons]; apply IH.
Qed.

Lemma dedupe_from_fresh results : ∀ seen r,
  r ∈ dedupe_from seen results → link r ≠ EmptyString ∧ link r ∉ seen.
Proof.
  induction results as [|r0 rest IH]; intros seen r; simpl.
  - by intros ?%elem_of_nil.
  - destruct (_ && _) eqn:Hc; [|by apply IH].
    apply andb_true_iff in Hc as [Ht Hs].
    apply truthy_nonempty in Ht. apply bool_decide_eq_true in Hs.
    intros [->|Hin]%elem_of_cons; [done|].
    apply IH in Hin as [Hne Hfresh]. split; [done|].
    intros Hseen. apply Hfresh, elem_of_union. by right.
Qed.

Lemma dedupe_from_NoDup results : ∀ seen,
  NoDup (link <$> dedupe_from seen results).
Proof.
  induction results as [|r rest IH]; intros seen; simpl.
  - constructor.
  - destruct (_ && _); [|apply IH].
    csimpl. apply NoDup_cons. split; [|apply IH].
    intros (r' & Heq & Hin)%list_elem_of_fmap.
    apply dedupe_from_fresh in Hin as [_ Hin]. set_solver.
Qed.

Lemma dedupe_from_covers results : ∀ seen l,
  l ≠ EmptyString → l ∉ seen → l ∈ link <$> results →
  l ∈ link <$> dedupe_from seen results.
Proof.
  induction results as [|r rest IH]; intros seen l Hne Hfresh; simpl.
  - done.
  - rewrite elem_of_cons.
    destruct (_ && _) eqn:Hc.
    + csimpl. rewrite elem_of_cons.
      destruct (decide (l = link r)) as [->|Hl]; [by left|].
      intros [?|Hin]; [done|]. right. apply IH; [done| |done].
      by intros [?%elem_of_singleton|?]%elem_of_union.
    + apply andb_false_iff in Hc.
      intros [->|Hin]; [|by apply IH].
      destruct Hc as [Hc|Hc].
      * apply truthy_nonempty in Hne. congruence.
      * apply bool_decide_eq_false in Hc. done.
Qed.

Lemma dedupe_from_first results : ∀ seen r,
  r ∈ dedupe_from seen results →
  ∃ pre post, results = pre ++ r :: post ∧ link r ∉ link <$> pre.
Proof.
  induction results as [|r0 rest IH]; intros seen r; simpl.
  - by intros ?%elem_of_nil.
  - destruct (_ && _) eqn:Hc.
    + intros [->|Hin]%elem_of_cons.
      { exists [], rest. split; [done|]. apply not_elem_of_nil. }
      pose proof (dedupe_from_fresh _ _ _ Hin) as [_ Hfresh].
      apply IH in Hin as (pre & post & -> & Hpre).
      exists (r0 :: pre), post. split; [done|].
      csimpl. rewrite not_elem_of_cons. set_solver.
    + intros Hin.
      pose proof (dedupe_from_fresh _ _ _ Hin) as [Hne Hfresh].
      apply IH in Hin as (pre & post & -> & Hpre).
      exists (r0 :: pre), post. split; [done|].
      csimpl. rewrite not_elem_of_cons. split; [|done].
      intros Heq. apply andb_false_iff in Hc as [Hc|Hc].
      * apply truthy_nonempty in Hne. congruence.
      * apply bool_decide_eq_false in Hc. rewrite <- Heq in Hc. done.
Qed.

(** Two first occurrences of one link are the same position. *)
Lemma first_occurrence_unique (pre : list SearchResult) : ∀ pre' r r' post post',
  pre ++ r :: post = pre' ++ r' :: post' →
  link r = link r' →
  link r ∉ link <$> pre → link r' ∉ link <$> pre' →
  r = r'.
Proof.
  induction pre as [|x pre IH]; intros [|x' pre'] r r' post post' Heq Hl H1 H2;
    simplify_eq/=.
  - done.
  - exfalso. apply H2. rewrite <- Hl. by left.
  - exfalso. apply H1. rewrite Hl. by left.
  - apply (IH pre' r r' post post'); [done|done| |].
    + intros ?. apply H1. by right.
    + intros ?. apply H2. by right.
Qed.

End Deduplicator.

Section FinalDedupe.
Implicit Types (r : SearchResult) (results : list SearchResult).

(** C1.  The final deduplication step of [main] returns a list that is no
    longer than its input, that is a subsequence of it (relative order is
    kept), whose links are pairwise distinct and non-empty, whose links are
    exactly the non-empty links of the input, and each of whose entries
    stands in the input at the first occurrence of its link. *)
Theorem final_dedupe_unique_links results :
  (length (final_dedupe results) ≤ length results)%nat
  ∧ final_dedupe results `sublist_of` results
  ∧ NoDup (link <$> final_dedupe results)
  ∧ Forall (λ r, link r ≠ EmptyString) (final_dedupe results)
  ∧ (∀ l, l ∈ link <$> final_dedupe results
          ↔ l ≠ EmptyString ∧ l ∈ link <$> results)
  ∧ Forall (λ r, ∃ pre post,
               results = pre ++ r :: post ∧ link r ∉ link <$> pre)
      (final_dedupe results).
Proof.
  rewrite final_dedupe_from_empty.
  pose proof (dedupe_from_sublist results ∅) as Hsub.
  split_and!.
  - by apply sublist_length.
  - done.
  - apply dedupe_from_NoDup.
  - apply Forall_forall. intros r Hin. by apply dedupe_from_fresh in Hin as [? _].
  - intros l. split.
    + intros (r & -> & Hin)%list_elem_of_fmap. split.
      * by apply dedupe_from_fresh in Hin as [? _].
      * apply list_elem_of_fmap_2. by eapply elem_of_sublist.
    + intros [Hne Hin]. apply dedupe_from_covers; [done|set_solver|done].
  - apply Forall_forall. intros r Hin. by eapply dedupe_from_first.
Qed.

(** C10.  The output of the final deduplication step is a subsequence of
    its input, and the first record of the input that carries a given
    non-empty link is in the output, whole, and is the only output record
    with that link: the title shown for a link is the one of its first
    occurrence. *)
Theorem final_dedupe_keeps_first results :
  final_dedupe results `sublist_of` results
  ∧ ∀ pre r post,
      results = pre ++ r :: post →
      link r ≠ EmptyString →
      link r ∉ link <$> pre →
      r ∈ final_dedupe results
      ∧ ∀ r', r' ∈ final_dedupe results → link r' = link r →
              r' = r ∧ title r' = title r.
Proof.
  rewrite final_dedupe_from_empty. split; [apply dedupe_from_sublist|].
  intros pre r post Hres Hne Hfirst.
  assert (Hsame : ∀ r', r' ∈ dedupe_from ∅ results → link r' = link r → r' = r).
  { intros r' Hin Hl.
    apply dedupe_from_first in Hin as (pre' & post' & Hres' & Hfirst').
    rewrite Hres in Hres'. symmetry.
    by eapply first_occurrence_unique. }
  split.
  - assert (link r ∈ link <$> dedupe_from ∅ results) as Hin.
    { apply dedupe_from_covers; [done|set_solver|].
      rewrite Hres, fmap_app, elem_of_app. right. csimpl. by left. }
    apply list_elem_of_fmap in Hin as (r' & Hl & Hin).
    by rewrite <- (Hsame r' Hin (eq_sym Hl)).
  - intros r' Hin Hl. by rewrite (Hsame r' Hin Hl).
Qed.

Lemma final_dedupe_keeps_first_witness :
  mkResult "A" "x" ∈
    final_dedupe [mkResult "A" "x"; mkResult "B" "y"; mkResult "C" "x"].
Proof.
  apply (proj2 (final_dedupe_keeps_first
                  [mkResult "A" "x"; mkResult "B" "y"; mkResult "C" "x"])
           [] (mkResult "A" "x") [mkResult "B" "y"; mkResult "C" "x"]).
  - reflexivity.
  - discriminate.
  - apply not_elem_of_nil.
Defined.

Example final_dedupe_spec_example :
  final_dedupe [mkResult "A" "x"; mkResult "B" "y"; mkResult "C" "x"]
  = [mkResult "A" "x"; mkResult "B" "y"].
Proof. vm_compute. reflexivity. Qed.

Example final_dedupe_drops_empty_link :
  final_dedupe [mkResult "A" EmptyString; mkResult "B" "y"]
  = [mkResult "B" "y"].
Proof. vm_compute. reflexivity. Qed.

End FinalDedupe.

Section Merge.
Implicit Types (r : SearchResult) (results news : list SearchResult).

Lemma merge_loop news : ∀ (existing : gset string) results,
  foldl (merge_step existing) results news
  = results ++ filter (λ r, link r ∉ existing) news.
Proof.
  induction news as [|r rest IH]; intros existing results; simpl.
  - by rewrite app_nil_r.
  - rewrite IH. unfold merge_step. rewrite filter_cons.
    case_bool_decide; case_decide; try done.
    by rewrite <- app_assoc.
Qed.

(** C3, as the code has it.  The merge appends to the primary results, in
    order, exactly the News results whose link is not a link of a primary
    result: the links to skip are fixed before the first append. *)
Theorem merge_news_skips_primary_links results news :
  merge_news results news
  = results ++ filter (λ r, link r ∉ link <$> results) news.
Proof.
  unfold merge_news. rewrite merge_loop. f_equal.
  apply list_filter_iff. intros r. unfold existing_links.
  by rewrite elem_of_list_to_set.
Qed.

(** Two News results with one new link are both appended: the second
    repeats a link that the merged list holds when it is considered. *)
Lemma merge_news_repeats_news_link :
  merge_news [mkResult "P" "p"]
    [mkResult "A" "x"; mkResult "B" "x"; mkResult "C" "p"]
  = [mkResult "P" "p"; mkResult "A" "x"; mkResult "B" "x"]
  ∧ ¬ merge_leaves_no_duplicate [mkResult "P" "p"]
        [mkResult "A" "x"; mkResult "B" "x"; mkResult "C" "p"].
Proof.
  split; [vm_compute; reflexivity|].
  intros H.
  apply (H [mkResult "P" "p"; mkResult "A" "x"] (mkResult "B" "x") []).
  - vm_compute. reflexivity.
  - simpl. lia.
  - csimpl. set_solver.
Qed.

End Merge.

(** ** Reasoning about computations *)

Section Triples.
Context {W : Type} (rt : Runtime W).

Lemma interrupted_app l1 l2 :
  interrupted (l1 ++ l2) = interrupted l1 || interrupted l2.
Proof. apply existsb_app. Qed.

Lemma allowed_extend lv e l1 l2 :
  interrupted l1 = false → allowed lv e l2 → allowed lv e (l1 ++ l2).
Proof.
  intros H1. destruct lv, e; simpl; try done;
    rewrite interrupted_app, H1; simpl; done.
Qed.

Lemma allowed_weaken lv lv' e l :
  level_le lv lv' = true → allowed lv e l → allowed lv' e l.
Proof. destruct lv, lv', e; simpl; done. Qed.

Lemma triple_weaken {A} lv lv' (m : M W A) (Q Q' : A → Prop) :
  level_le lv lv' = true → (∀ a, Q a → Q' a) →
  triple lv m Q → triple lv' m Q'.
Proof.
  intros Hle HQ Hm s. destruct (Hm s) as (l & Ht & Hr).
  exists l. split; [done|].
  destruct ((m s).2); [|by eapply allowed_weaken].
  destruct Hr as [Hquiet Ha]. split; [done|by apply HQ].
Qed.

Lemma triple_ret {A} lv (a : A) (Q : A → Prop) :
  Q a → triple lv (mret a : M W A) Q.
Proof. intros HQ s. exists []. simpl. by rewrite app_nil_r. Qed.

Lemma triple_bind {A B} lv (m : M W A) (f : A → M W B) Q1 (Q2 : B → Prop) :
  triple lv m Q1 → (∀ a, Q1 a → triple lv (f a) Q2) →
  triple lv (m ≫= f) Q2.
Proof.
  intros Hm Hf s. unfold mbind, M_bind.
  destruct (Hm s) as (l1 & Ht1 & Hr1).
  destruct (m s) as [s1 [a|e]]; simpl in *.
  - destruct Hr1 as [Hn1 Ha].
    destruct (Hf a Ha s1) as (l2 & Ht2 & Hr2).
    exists (l1 ++ l2). split; [by rewrite Ht2, Ht1, app_assoc|].
    destruct ((f a s1).2).
    + by rewrite interrupted_app, Hn1.
    + by apply allowed_extend.
  - by exists l1.
Qed.

Lemma triple_try_except {A} lv (m : M W A) h (Q : A → Prop) :
  triple Fallible m Q → (∀ e, triple lv (h e) Q) →
  triple lv (try_except_Exception m h) Q.
Proof.
  intros Hm Hh s. unfold try_except_Exception.
  destruct (Hm s) as (l1 & Ht1 & Hr1).
  destruct (m s) as [s1 [a|[e| |code]]]; simpl in *; try done.
  - by exists l1.
  - destruct (Hh e s1) as (l2 & Ht2 & Hr2).
    exists (l1 ++ l2). split; [by rewrite Ht2, Ht1, app_assoc|].
    destruct ((h e s1).2).
    + by rewrite interrupted_app, Hr1.
    + by apply allowed_extend.
Qed.

Lemma triple_for_each {X S} lv (body : S → X → M W S) (I : S → Prop) xs :
  (∀ acc x, I acc → triple lv (body acc x) I) →
  ∀ acc, I acc → triple lv (for_each xs body acc) I.
Proof.
  intros Hbody. induction xs as [|x xs IH]; intros acc Hacc; simpl.
  - by apply triple_ret.
  - eapply triple_bind; [by apply Hbody|]. intros acc' Hacc'. by apply IH.
Qed.

Lemma triple_perform c :
  triple Fallible (perform rt c) (λ _, True).
Proof.
  intros s. exists [Called c]. unfold perform.
  destruct (respond rt c (world s)) as [w [e|a]]; simpl; done.
Qed.

Lemma triple_print line : triple Quiet (print line : M W unit) (λ _, True).
Proof. intros s. exists []. simpl. by rewrite app_nil_r. Qed.

Lemma triple_sleep ms : triple Quiet (sleep rt ms) (λ _, True).
Proof. intros s. by exists [Slept ms]. Qed.

Lemma triple_set_attr x : triple Quiet (set_attr rt x) (λ _, True).
Proof. intros s. by exists [Assigned x]. Qed.

(** What a quiet computation gives, spelled out. *)
Lemma triple_quiet_returns {A} (m : M W A) (Q : A → Prop) :
  triple Quiet m Q → ∀ s, ∃ s' a, m s = (s', Ok a) ∧ Q a.
Proof.
  intros Hm s. destruct (Hm s) as (l & _ & Hr).
  destruct (m s) as [s' [a|e]]; simpl in *; [|done].
  destruct Hr as [_ Ha]. by exists s', a.
Qed.

End Triples.

(** [step H]: the next call of a sequence obeys [H], at any weaker level. *)
Tactic Notation "step" uconstr(H) :=
  eapply triple_bind;
  [ eapply triple_weaken; [ | | apply H ];
    [ reflexivity | simpl; intros ? HQ; exact HQ ]
  | simpl; intros ].

Tactic Notation "step" uconstr(H) "as" simple_intropattern(x) :=
  eapply triple_bind;
  [ eapply triple_weaken; [ | | apply H ];
    [ reflexivity | simpl; intros ? HQ; exact HQ ]
  | simpl; intros x ? ].

(** [weaken H]: the computation obeys [H]; it remains to show that the
    result [H] gives is the one asked for. *)
Tactic Notation "weaken" uconstr(H) :=
  eapply triple_weaken; [ | | apply H ]; [ reflexivity | simpl ].

(** ** The result collector *)

Section Collector.
Context {W : Type} (rt : Runtime W).
Implicit Types (results : list SearchResult) (max_items : Z).

Lemma safe_wait_for_selector_quiet selector timeout :
  triple Quiet (safe_wait_for_selector rt selector timeout) (λ _, True).
Proof.
  unfold safe_wait_for_selector. apply triple_try_except.
  - step (triple_perform rt (WaitForSelector _ _)). by apply triple_ret.
  - intros []; by apply triple_ret.
Qed.

Lemma collect_item_quiet loc results i :
  triple Quiet (collect_item rt loc results i) (at_most_one_more results).
Proof.
  unfold collect_item. apply triple_try_except.
  - eapply triple_bind with (Q1 := λ _, True).
    { apply triple_try_except.
      - step (triple_perform rt (InnerText _)). by apply triple_ret.
      - intros e. step (triple_perform rt (InnerText _)). by apply triple_ret. }
    intros title _. step (triple_perform rt (GetAttribute _ _)) as h.
    destruct (PyStr.truthy title) eqn:Ht; simpl.
    + destruct (PyStr.truthy (PyStr.or_empty h)) eqn:Hh; simpl.
      * apply triple_ret. right. eexists. split; [done|].
        split; simpl; by apply truthy_nonempty.
      * apply triple_ret. by left.
    + apply triple_ret. by left.
  - intros e. apply triple_ret. by left.
Qed.

Lemma collect_items_quiet loc (idx : list Z) : ∀ results,
  triple Quiet (for_each idx (collect_item rt loc) results)
    (λ rs, ∃ added, rs = results ++ added
                    ∧ (length added ≤ length idx)%nat
                    ∧ Forall well_formed added).
Proof.
  induction idx as [|i idx IH]; intros results; simpl.
  - apply triple_ret. exists []. by rewrite app_nil_r.
  - eapply triple_bind; [apply collect_item_quiet|].
    intros rs [->|(r & -> & Hr)].
    + weaken IH.
      intros ? (added & -> & ? & ?). exists added. split_and!; [done|lia|done].
    + weaken IH.
      intros ? (added & -> & ? & ?). exists (r :: added).
      split_and!; [by rewrite <- app_assoc|simpl; lia|by constructor].
Qed.

Lemma length_range n : len (range n) = Z.max 0 n.
Proof. unfold len, range. rewrite length_fmap, length_seq. lia. Qed.

Lemma collect_attempt_quiet sel max_items results attempt :
  within max_items results →
  triple Quiet (collect_attempt rt sel max_items results attempt)
    (λ out, within max_items out.2).
Proof.
  intros [Hwf Hlen]. unfold collect_attempt. apply triple_try_except.
  - step safe_wait_for_selector_quiet as found.
    destruct found; simpl; [|by apply triple_ret].
    step (triple_perform rt (Count _)) as count.
    eapply triple_bind;
      [weaken (collect_items_quiet _ _); intros ? HQ; exact HQ|].
    simpl. intros rs (added & -> & Hadd & Hwf').
    assert (within max_items (results ++ added)).
    { split; [by apply Forall_app|].
      pose proof (length_range (count `min` (max_items - len results))).
      unfold len in *. rewrite length_app. lia. }
    destruct (_ >=? _); by apply triple_ret.
  - intros e. destruct (_ <? _).
    + step triple_sleep. by apply triple_ret.
    + by apply triple_ret.
Qed.

Lemma collect_attempts_quiet sel max_items (attempts : list Z) : ∀ results,
  within max_items results →
  triple Quiet (collect_attempts rt sel max_items results attempts)
    (λ out, within max_items out.2).
Proof.
  induction attempts as [|attempt rest IH]; intros results Hin; simpl.
  - by apply triple_ret.
  - eapply triple_bind; [by apply collect_attempt_quiet|].
    intros [fl rs] Hrs. simpl in Hrs.
    destruct fl; [by apply IH|by apply triple_ret..].
Qed.

Lemma collect_selectors_quiet max_items (selector_list : list string) :
  ∀ results,
  within max_items results →
  triple Quiet (collect_selectors rt selector_list max_items results)
    (within max_items).
Proof.
  induction selector_list as [|sel rest IH]; intros results Hin;
    cbn [collect_selectors].
  - by apply triple_ret.
  - eapply triple_bind; [by apply collect_attempts_quiet|].
    intros [returned rs] Hrs. simpl in Hrs.
    destruct returned; [by apply triple_ret|by apply IH].
Qed.

Lemma collect_search_results_quiet selector_list max_items :
  triple Quiet (collect_search_results rt selector_list max_items)
    (within max_items).
Proof.
  apply collect_selectors_quiet. split; [constructor|]. unfold len. simpl. lia.
Qed.

(** C2.  For every page, every selector list and every capacity
    [max_items] = N (a count, N >= 0), the collector returns a list of
    length at most N, however many elements match a selector and however
    many selectors succeed. *)
Theorem collect_search_results_capacity selector_list max_items s :
  0 ≤ max_items →
  ∃ s' results,
    collect_search_results rt selector_list max_items s = (s', Ok results)
    ∧ len results ≤ max_items.
Proof.
  intros Hcount.
  destruct (triple_quiet_returns _ _
              (collect_search_results_quiet selector_list max_items) s)
    as (s' & results & Hrun & _ & Hlen).
  exists s', results. split; [done|]. lia.
Qed.

(** C8.  Every record of the list the collector returns has a non-empty
    title and a non-empty link.  For one element: when its title (the text
    of its heading or, if that read raises, its own text) and its link
    attribute are read, the element contributes the record of the stripped
    title and the link if both are non-empty, and nothing otherwise, so
    nothing for an empty title or a missing or empty link; when a read it
    needs raises, it contributes nothing. *)
Theorem collect_search_results_well_formed selector_list max_items s :
  (∃ s' results,
     collect_search_results rt selector_list max_items s = (s', Ok results)
     ∧ Forall (λ r, title r ≠ EmptyString ∧ link r ≠ EmptyString) results)
  ∧ ∀ loc results i,
      let a := Nth loc i in
      (∀ w1 t w2 h,
         (respond rt (InnerText (Sub a "h3")) (world s) = (w1, inr t)
          ∨ ∃ w0 e,
              respond rt (InnerText (Sub a "h3")) (world s) = (w0, inl e)
              ∧ respond rt (InnerText a) w0 = (w1, inr t)) →
         respond rt (GetAttribute a "href") w1 = (w2, inr h) →
         (collect_item rt loc results i s).2
         = Ok (if PyStr.truthy (PyStr.strip t)
                  && PyStr.truthy (PyStr.or_empty h)
               then results ++ [mkResult (PyStr.strip t) (PyStr.or_empty h)]
               else results)
         ∧ (PyStr.strip t = EmptyString ∨ h = None ∨ h = Some EmptyString →
            (collect_item rt loc results i s).2 = Ok results))
      ∧ (∀ w1 t w2 e,
           (respond rt (InnerText (Sub a "h3")) (world s) = (w1, inr t)
            ∨ ∃ w0 e0,
                respond rt (InnerText (Sub a "h3")) (world s) = (w0, inl e0)
                ∧ respond rt (InnerText a) w0 = (w1, inr t)) →
           respond rt (GetAttribute a "href") w1 = (w2, inl e) →
           (collect_item rt loc results i s).2 = Ok results)
      ∧ (∀ w0 e w1 e',
           respond rt (InnerText (Sub a "h3")) (world s) = (w0, inl e) →
           respond rt (InnerText a) w0 = (w1, inl e') →
           (collect_item rt loc results i s).2 = Ok results).
Proof.
  split.
  - destruct (triple_quiet_returns _ _
                (collect_search_results_quiet selector_list max_items) s)
      as (s' & results & Hrun & Hwf & _).
    by exists s', results.
  - intros loc results i a.
    assert (Hrun : ∀ w1 t w2 (r : exception + option string),
              (respond rt (InnerText (Sub a "h3")) (world s) = (w1, inr t)
               ∨ ∃ w0 e,
                   respond rt (InnerText (Sub a "h3")) (world s) = (w0, inl e)
                   ∧ respond rt (InnerText a) w0 = (w1, inr t)) →
              respond rt (GetAttribute a "href") w1 = (w2, r) →
              (collect_item rt loc results i s).2
              = Ok match r with
                   | inl _ => results
                   | inr h =>
                       if PyStr.truthy (PyStr.strip t)
                          && PyStr.truthy (PyStr.or_empty h)
                       then results
                            ++ [mkResult (PyStr.strip t) (PyStr.or_empty h)]
                       else results
                   end).
    { intros w1 t w2 r Htitle Hattr.
      unfold collect_item, try_except_Exception, mbind, M_bind, perform.
      fold a. simpl.
      destruct Htitle as [->|(w0 & e & -> & Hown)]; simpl;
        rewrite ?Hown; simpl; rewrite Hattr; simpl;
        destruct r as [e'|h]; simpl; try done;
        by destruct (PyStr.truthy (PyStr.strip t) && _). }
    split_and!.
    + intros w1 t w2 h Htitle Hattr.
      rewrite (Hrun w1 t w2 (inr h) Htitle Hattr). split; [done|].
      intros [->|[->| ->]]; [done|simpl..]; by rewrite andb_false_r.
    + intros w1 t w2 e Htitle Hattr.
      by rewrite (Hrun w1 t w2 (inl e) Htitle Hattr).
    + intros w0 e w1 e' Hh3 Hown.
      unfold collect_item, try_except_Exception, mbind, M_bind, perform.
      fold a. simpl. rewrite Hh3. simpl. by rewrite Hown.
Qed.

End Collector.

Lemma collect_search_results_capacity_witness :
  ∃ s' results,
    collect_search_results (mock_runtime busy_page) selectors 3 initial
    = (s', Ok results)
    ∧ len results ≤ 3.
Proof.
  apply (collect_search_results_capacity (mock_runtime busy_page) selectors 3
           initial).
  lia.
Defined.

Lemma collect_search_results_well_formed_witness :
  (collect_item (mock_runtime busy_page) (Locator "h3 > a") [] 0 initial).2
  = Ok [mkResult "Match report" "https://example.org/report"]
  ∧ (collect_item (mock_runtime nbsp_page) (Locator "h3 > a") [] 0 initial).2
    = Ok []
  ∧ (collect_item (mock_runtime blank_page) (Locator "h3 > a") [] 0 initial).2
    = Ok []
  ∧ (collect_item (mock_runtime unreadable_page) (Locator "h3 > a") [] 0
       initial).2
    = Ok [].
Proof.
  split_and!.
  - apply (proj1 (proj1 (proj2 (collect_search_results_well_formed
                                  (mock_runtime busy_page) [] 0 initial)
                          (Locator "h3 > a") [] 0)
                   () "  Match report " ()
                   (Some "https://example.org/report")
                   (or_introl eq_refl) eq_refl)).
  - apply (proj2 (proj1 (proj2 (collect_search_results_well_formed
                                  (mock_runtime nbsp_page) [] 0 initial)
                          (Locator "h3 > a") [] 0)
                   () (PyStr.bytes [194; 160; 32; 194; 160]%nat) ()
                   (Some "https://example.org/report")
                   (or_introl eq_refl) eq_refl)).
    left. vm_compute. reflexivity.
  - apply (proj2 (proj1 (proj2 (collect_search_results_well_formed
                                  (mock_runtime blank_page) [] 0 initial)
                          (Locator "h3 > a") [] 0)
                   () EmptyString () None (or_introl eq_refl) eq_refl)).
    by left.
  - apply (proj2 (proj2 (proj2 (collect_search_results_well_formed
                                  (mock_runtime unreadable_page) [] 0 initial)
                          (Locator "h3 > a") [] 0))
             () context_destroyed () context_destroyed eq_refl eq_refl).
Defined.

Example collect_search_results_stops_at_capacity :
  (collect_search_results (mock_runtime busy_page) selectors 3 initial).2
  = Ok [ mkResult "Match report" "https://example.org/report";
         mkResult "Match report" "https://example.org/report";
         mkResult "Match report" "https://example.org/report" ].
Proof. vm_compute. reflexivity. Qed.

Example collect_search_results_blank_page :
  (collect_search_results (mock_runtime blank_page) selectors 12 initial).2
  = Ok [].
Proof. vm_compute. reflexivity. Qed.

(** ** The challenge detector *)

Section Strings.

Lemma append_nil (t : string) : EmptyString +:+ t = t.
Proof. reflexivity. Qed.

Lemma append_cons c (s t : string) : String c s +:+ t = String c (s +:+ t).
Proof. reflexivity. Qed.

Lemma prefix_cons c d (sub s : string) :
  String.prefix (String c sub) (String d s)
  = if ascii_dec c d then String.prefix sub s else false.
Proof. reflexivity. Qed.

Lemma prefix_append (sub : string) : ∀ s,
  String.prefix sub s = true ↔ ∃ b, s = sub +:+ b.
Proof.
  induction sub as [|c sub IH]; intros s.
  - split; [intros _; by exists s|intros _; by destruct s].
  - destruct s as [|d s].
    + split; [done|]. intros [b Hb]. rewrite append_cons in Hb. done.
    + rewrite prefix_cons. destruct (ascii_dec c d) as [->|Hne].
      * rewrite IH. split; intros [b Hb]; exists b.
        -- by rewrite append_cons, Hb.
        -- rewrite append_cons in Hb. congruence.
      * split; [done|]. intros [b Hb]. rewrite append_cons in Hb. congruence.
Qed.

(** [contains] is the substring test. *)
Lemma contains_spec (sub : string) : ∀ s,
  PyStr.contains sub s = true ↔ ∃ a b, s = a +:+ sub +:+ b.
Proof.
  intros s. split.
  - induction s as [|c s IH]; cbn [PyStr.contains]; rewrite orb_true_iff.
    + intros [[b Hb]%prefix_append|?]; [|done]. by exists EmptyString, b.
    + intros [[b Hb]%prefix_append|Hin]; [by exists EmptyString, b|].
      destruct (IH Hin) as (a & b & ->). by exists (String c a), b.
  - intros (a & b & ->). induction a as [|c a IH].
    + rewrite append_nil.
      assert (String.prefix sub (sub +:+ b) = true) as Hp
        by (apply prefix_append; by exists b).
      destruct (sub +:+ b); cbn [PyStr.contains]; by rewrite Hp.
    + rewrite append_cons. cbn [PyStr.contains]. rewrite IH.
      apply orb_true_r.
Qed.

End Strings.

Section ChallengeDetector.
Context {W : Type} (rt : Runtime W).

Ltac run_detector :=
  unfold is_captcha_page, try_except_Exception, mbind, M_bind, perform;
  simpl.

(** C5.  The detector answers [True] when the URL holds the marker
    [/sorry/]; [True] when the page reports an element with the first
    phrase, or none with the first and one with the second; and [False]
    when the URL holds no marker and the page reports no element for
    either phrase. *)
Theorem is_captcha_page_detects s w u :
  respond rt Url (world s) = (w, inr u) →
  ((∃ a b, PyStr.or_empty u = a +:+ sorry_marker +:+ b) →
     (is_captcha_page rt s).2 = Ok true)
  ∧ ∀ w1 n1,
      (¬ ∃ a b, PyStr.or_empty u = a +:+ sorry_marker +:+ b) →
      respond rt (Count (Locator robot_phrase)) w = (w1, inr n1) →
      (0 < n1 → (is_captcha_page rt s).2 = Ok true)
      ∧ ∀ w2 n2,
          n1 ≤ 0 →
          respond rt (Count (Locator traffic_phrase)) w1 = (w2, inr n2) →
          (0 < n2 → (is_captcha_page rt s).2 = Ok true)
          ∧ (n2 ≤ 0 → (is_captcha_page rt s).2 = Ok false).
Proof.
  intros Hurl. split.
  - intros Hm%contains_spec. run_detector. by rewrite Hurl, Hm.
  - intros w1 n1 Hm Hrobot.
    assert (PyStr.contains sorry_marker (PyStr.or_empty u) = false) as Hc.
    { apply not_true_is_false. by rewrite contains_spec. }
    split.
    + intros Hn1%Z.ltb_lt. run_detector. rewrite Hurl, Hc. simpl.
      by rewrite Hrobot, Hn1.
    + intros w2 n2 Hn1%Z.ltb_ge Htraffic. split.
      * intros Hn2%Z.ltb_lt. run_detector. rewrite Hurl, Hc. simpl.
        rewrite Hrobot, Hn1. simpl. by rewrite Htraffic, Hn2.
      * intros Hn2%Z.ltb_ge. run_detector. rewrite Hurl, Hc. simpl.
        rewrite Hrobot, Hn1. simpl. by rewrite Htraffic, Hn2.
Qed.

(** C6.  The detector never raises: it always returns a boolean.  When the
    access to the URL raises, or the lookup of the first phrase raises, or
    the lookup of the second phrase raises, it returns [False]. *)
Theorem is_captcha_page_fails_open s :
  (∃ s' b, is_captcha_page rt s = (s', Ok b))
  ∧ (∀ w e, respond rt Url (world s) = (w, inl e) →
            (is_captcha_page rt s).2 = Ok false)
  ∧ (∀ w u w1 e,
       respond rt Url (world s) = (w, inr u) →
       PyStr.contains sorry_marker (PyStr.or_empty u) = false →
       respond rt (Count (Locator robot_phrase)) w = (w1, inl e) →
       (is_captcha_page rt s).2 = Ok false)
  ∧ (∀ w u w1 n1 w2 e,
       respond rt Url (world s) = (w, inr u) →
       PyStr.contains sorry_marker (PyStr.or_empty u) = false →
       respond rt (Count (Locator robot_phrase)) w = (w1, inr n1) →
       n1 ≤ 0 →
       respond rt (Count (Locator traffic_phrase)) w1 = (w2, inl e) →
       (is_captcha_page rt s).2 = Ok false).
Proof.
  split_and!.
  - run_detector.
    destruct (respond rt Url (world s)) as [w [e|u]]; simpl; [by eauto|].
    destruct (PyStr.contains _ _); [by eauto|]. simpl.
    destruct (respond rt (Count (Locator robot_phrase)) w) as [w1 [e|n1]];
      simpl; [by eauto|].
    destruct (0 <? n1); [by eauto|]. simpl.
    destruct (respond rt (Count (Locator traffic_phrase)) w1) as [w2 [e|n2]];
      simpl; [by eauto|].
    destruct (0 <? n2); by eauto.
  - intros w e Hurl. run_detector. by rewrite Hurl.
  - intros w u w1 e Hurl Hc Hrobot. run_detector. rewrite Hurl, Hc. simpl.
    by rewrite Hrobot.
  - intros w u w1 n1 w2 e Hurl Hc Hrobot Hn1%Z.ltb_ge Htraffic. run_detector.
    rewrite Hurl, Hc. simpl. rewrite Hrobot, Hn1. simpl. by rewrite Htraffic.
Qed.

End ChallengeDetector.

Lemma search_url_no_marker :
  ¬ ∃ a b, PyStr.or_empty search_url = a +:+ sorry_marker +:+ b.
Proof. intros Hab%contains_spec. vm_compute in Hab. discriminate. Qed.

Lemma is_captcha_page_detects_witness :
  (is_captcha_page (mock_runtime sorry_page) initial).2 = Ok true
  ∧ (is_captcha_page (mock_runtime robot_page) initial).2 = Ok true
  ∧ (is_captcha_page (mock_runtime traffic_page) initial).2 = Ok true
  ∧ (is_captcha_page (mock_runtime blank_page) initial).2 = Ok false.
Proof.
  split_and!.
  - apply (proj1 (is_captcha_page_detects (mock_runtime sorry_page) initial
                    () _ eq_refl)).
    by exists "https://www.google.com", "index?continue=x".
  - pose proof (is_captcha_page_detects (mock_runtime robot_page) initial
                  () search_url eq_refl) as [_ Hphrases].
    destruct (Hphrases () 1 search_url_no_marker eq_refl) as [Hrobot _].
    apply Hrobot. lia.
  - pose proof (is_captcha_page_detects (mock_runtime traffic_page) initial
                  () search_url eq_refl) as [_ Hphrases].
    destruct (Hphrases () 0 search_url_no_marker eq_refl) as [_ Htraffic].
    destruct (Htraffic () 2) as [Hyes _]; [lia|reflexivity|].
    apply Hyes. lia.
  - pose proof (is_captcha_page_detects (mock_runtime blank_page) initial
                  () (Some "https://www.google.com/") eq_refl)
      as [_ Hphrases].
    assert (¬ ∃ a b, PyStr.or_empty (Some "https://www.google.com/")
                     = a +:+ sorry_marker +:+ b) as Hno.
    { intros Hab%contains_spec. vm_compute in Hab. discriminate. }
    destruct (Hphrases () 0 Hno eq_refl) as [_ Htraffic].
    destruct (Htraffic () 0) as [_ Hnone]; [lia|reflexivity|].
    apply Hnone. lia.
Defined.

Lemma is_captcha_page_fails_open_witness :
  (is_captcha_page (mock_runtime closed_page) initial).2 = Ok false
  ∧ (is_captcha_page (mock_runtime detached_page) initial).2 = Ok false
  ∧ (is_captcha_page (mock_runtime half_detached_page) initial).2 = Ok false.
Proof.
  split_and!.
  - eapply (proj1 (proj2
              (is_captcha_page_fails_open (mock_runtime closed_page) initial))).
    reflexivity.
  - eapply (proj1 (proj2 (proj2
              (is_captcha_page_fails_open (mock_runtime detached_page)
                 initial)))).
    + reflexivity.
    + vm_compute. reflexivity.
    + reflexivity.
  - eapply (proj2 (proj2 (proj2
              (is_captcha_page_fails_open (mock_runtime half_detached_page)
                 initial))) () search_url () 0).
    + reflexivity.
    + vm_compute. reflexivity.
    + reflexivity.
    + lia.
    + reflexivity.
Defined.

(** ** The run of the scraper *)

Section Run.
Context {W : Type} (rt : Runtime W).

Lemma is_captcha_page_quiet :
  triple Quiet (is_captcha_page rt) (λ _, True).
Proof.
  unfold is_captcha_page. apply triple_try_except; [|intros; by apply triple_ret].
  step (triple_perform rt Url).
  destruct (PyStr.contains _ _); [by apply triple_ret|].
  step (triple_perform rt (Count _)).
  destruct (0 <? _); [by apply triple_ret|].
  step (triple_perform rt (Count _)).
  destruct (0 <? _); by apply triple_ret.
Qed.

Lemma prompt_manual_solve_exiting :
  triple Exiting (prompt_manual_solve rt) (λ _, True).
Proof.
  intros s. unfold prompt_manual_solve, try_except_KeyboardInterrupt, input,
    mbind, M_bind, print, sys_exit, raise. simpl.
  destruct (read_line rt PROMPT (world s)) as [w o].
  exists [Asked PROMPT o]. destruct o; simpl; done.
Qed.

Lemma settle_quiet : triple Quiet (settle rt) (λ _, True).
Proof.
  unfold settle. apply triple_try_except; [|intros; by apply triple_ret].
  weaken (triple_perform rt (WaitForLoadState _ _)). done.
Qed.

Lemma captcha_gate_exiting : triple Exiting (captcha_gate rt) (λ _, True).
Proof.
  unfold captcha_gate. step is_captcha_page_quiet as captcha.
  destruct captcha; [|by apply triple_ret].
  step prompt_manual_solve_exiting. weaken settle_quiet. done.
Qed.

Lemma generic_search_fallible (on_failure : exception → M W unit) :
  (∀ e, triple Fallible (on_failure e) (λ _, True)) →
  triple Fallible
    (try_except_Exception
       (perform rt (PageFill "input[name='q']" SEARCH_QUERY) ;;
        perform rt (KeyboardPress "Enter") ;;
        mret true)
       (λ e, on_failure e ;; perform rt ContextClose ;; mret false))
    (λ _, True).
Proof.
  intros Hfail. apply triple_try_except.
  - step (triple_perform rt (PageFill _ _)).
    step (triple_perform rt (KeyboardPress _)). by apply triple_ret.
  - intros e. step (Hfail e).
    step (triple_perform rt ContextClose). by apply triple_ret.
Qed.

Lemma submit_query_fallible : triple Fallible (submit_query rt) (λ _, True).
Proof.
  unfold submit_query. step safe_wait_for_selector_quiet as found.
  destruct found.
  - step triple_print. apply triple_try_except.
    + step (triple_perform rt (Click _ _)).
      step (triple_perform rt (Fill _ _ _)).
      step (triple_perform rt (KeyboardPress _)). by apply triple_ret.
    + intros e. step triple_print.
      apply (generic_search_fallible (λ e2, print _)).
      intros e2. weaken triple_print. done.
  - step triple_print.
    apply (generic_search_fallible (λ e, print _)).
    intros e. weaken triple_print. done.
Qed.

Lemma try_click_news_tab_quiet :
  triple Quiet (try_click_news_tab rt) (λ _, True).
Proof.
  unfold try_click_news_tab.
  apply triple_try_except; [|intros; by apply triple_ret].
  step (triple_perform rt (Count _)).
  destruct (0 <? _); [|by apply triple_ret].
  step (triple_perform rt (Click _ _)).
  step (triple_perform rt (WaitForLoadState _ _)).
  step triple_sleep. by apply triple_ret.
Qed.

Lemma augment_quiet results : triple Quiet (augment rt results) (λ _, True).
Proof.
  unfold augment. destruct (_ <? _); [|by apply triple_ret].
  step triple_print. step try_click_news_tab_quiet as clicked.
  destruct clicked; [|by apply triple_ret].
  step (collect_search_results_quiet rt news_selectors 12).
  by apply triple_ret.
Qed.

Lemma report_items_quiet (unique : list SearchResult) i :
  triple Quiet (for_each unique report_item i : M W nat) (λ _, True).
Proof.
  apply triple_for_each with (I := λ _, True); [|done].
  intros j x _. unfold report_item. do 2 step triple_print.
  by apply triple_ret.
Qed.

Lemma report_quiet unique :
  triple Quiet (report unique : M W unit) (λ _, True).
Proof.
  unfold report. destruct unique as [|r unique].
  - do 4 step triple_print. weaken triple_print. done.
  - eapply triple_bind; [apply triple_print|]. intros _ _.
    eapply triple_bind; [apply report_items_quiet|].
    intros; by apply triple_ret.
Qed.

Lemma main_body_exiting : triple Exiting (main_body rt) (λ _, True).
Proof.
  unfold main_body.
  step triple_print.
  step (triple_perform rt (LaunchPersistentContext _ _ _ _)).
  step (triple_perform rt NewPage).
  step (triple_perform rt (SetExtraHttpHeaders _ _)).
  eapply triple_bind with (Q1 := λ _, True).
  { apply triple_try_except.
    - step triple_print. weaken (triple_perform rt (Goto _ _)). done.
    - intros e. weaken triple_print. done. }
  intros _ _. step captcha_gate_exiting. step submit_query_fallible as submitted.
  destruct submitted; simpl; [|by apply triple_ret].
  step settle_quiet. step triple_sleep. step captcha_gate_exiting.
  step triple_print.
  step (collect_search_results_quiet rt selectors 12).
  step augment_quiet. step report_quiet. step triple_print.
  weaken (triple_perform rt ContextClose). done.
Qed.


(** The result of the augmentation step is the merge of the primary
    results with some list of News results (none when the tab was not
    opened). *)
Lemma augment_returns_merge results s :
  ∃ s' news, augment rt results s = (s', Ok (merge_news results news)).
Proof.
  unfold augment. destruct (_ <? _); [|by exists s, []].
  unfold mbind, M_bind, print. simpl.
  set (s1 := mkState _ _ _).
  destruct (triple_quiet_returns _ _ try_click_news_tab_quiet s1)
    as (s2 & clicked & -> & _).
  destruct clicked; [|by exists s2, []].
  destruct (triple_quiet_returns _ _
              (collect_search_results_quiet rt news_selectors 12) s2)
    as (s3 & news & -> & _).
  by exists s3, news.
Qed.



(** C7.  When the prompt is interrupted, the gate prints its farewell and
    leaves through [sys.exit(1)]; when a line is entered, it returns.
    Nothing in [main] stops the exit: a run of [main] in which a prompt was
    interrupted ends the process with status 1. *)
Theorem prompt_manual_solve_interrupt s :
  (∀ w, read_line rt PROMPT (world s) = (w, Interrupt) →
        (prompt_manual_solve rt s).2 = Raise (SystemExit 1)
        ∧ exit_status (prompt_manual_solve rt s).2 = 1
        ∧ last (stdout (prompt_manual_solve rt s).1)
          = Some (nl +:+ "Interrupted by user. Exiting."))
  ∧ (∀ w line, read_line rt PROMPT (world s) = (w, Line line) →
               (prompt_manual_solve rt s).2 = Ok ())
  ∧ (interrupted (new_events s (main rt s).1) = true →
     exit_status (main rt s).2 = 1).
Proof.
  split_and!.
  - intros w Hin. unfold prompt_manual_solve, try_except_KeyboardInterrupt,
      input, mbind, M_bind, print, sys_exit, raise. simpl. rewrite Hin. simpl.
    split_and!; [done..|]. by rewrite last_snoc.
  - intros w line Hin. unfold prompt_manual_solve,
      try_except_KeyboardInterrupt, input, mbind, M_bind, print. simpl.
    by rewrite Hin.
  - unfold main, with_context, ensure, new_events, mbind, M_bind, perform,
      raise. simpl.
    destruct (respond rt SyncPlaywrightEnter (world s)) as [w [e|[]]]; simpl.
    { by rewrite drop_app_length. }
    set (s1 := mkState _ _ _).
    destruct (main_body_exiting s1) as (l & Htrace & Hres).
    destruct (main_body rt s1) as [s2 [[]|e]]; simpl in *.
    + destruct Hres as [Hquiet _].
      destruct (respond rt SyncPlaywrightExit (world s2)) as [w2 [e|[]]];
        simpl; rewrite Htrace; unfold s1; simpl;
        rewrite <- !app_assoc, drop_app_length; simpl;
        rewrite interrupted_app, Hquiet; done.
    + destruct e as [e| |code]; simpl in Hres; [|done|].
      * destruct (respond rt SyncPlaywrightExit (world s2)) as [w2 [e'|[]]];
          simpl; rewrite Htrace; unfold s1; simpl;
          rewrite <- !app_assoc, drop_app_length; simpl;
          rewrite interrupted_app, Hres; done.
      * destruct Hres as [_ ->].
        by destruct (respond rt SyncPlaywrightExit (world s2))
          as [w2 [e'|[]]].
Qed.

End Run.


(** With a News tab and one primary result, the step opens the tab,
    collects twelve News results and appends them. *)
Example augment_attempt_made :
  (augment (mock_runtime busy_page) [mkResult "P" "p"] initial).2
  = Ok (mkResult "P" "p"
        :: replicate 12 (mkResult "Match report" "https://example.org/report"))
  ∧ take 4 (trace (augment (mock_runtime busy_page) [mkResult "P" "p"]
                     initial).1)
    = news_tab_opened.
Proof. split; vm_compute; reflexivity. Qed.

Lemma prompt_manual_solve_interrupt_witness :
  (prompt_manual_solve (mock_runtime sorry_page) initial).2
  = Raise (SystemExit 1)
  ∧ (prompt_manual_solve (mock_runtime blank_page) initial).2 = Ok ()
  ∧ exit_status (main (mock_runtime sorry_page) initial).2 = 1.
Proof.
  split_and!.
  - eapply (proj1 (prompt_manual_solve_interrupt (mock_runtime sorry_page)
                     initial)).
    reflexivity.
  - eapply (proj1 (proj2 (prompt_manual_solve_interrupt
                            (mock_runtime blank_page) initial))).
    reflexivity.
  - apply (proj2 (proj2 (prompt_manual_solve_interrupt
                           (mock_runtime sorry_page) initial))).
    vm_compute. reflexivity.
Defined.

Example main_blank_page_exit_status :
  exit_status (main (mock_runtime blank_page) initial).2 = 0.
Proof. vm_compute. reflexivity. Qed.

Example main_sorry_page_last_line :
  last (stdout (main (mock_runtime sorry_page) initial).1)
  = Some (nl +:+ "Interrupted by user. Exiting.").
Proof. vm_compute. reflexivity. Qed.

(** ** The mail sender *)

Section MailSenderRun.
Context {W : Type} (rt : Runtime W).

Ltac unfold_script :=
  unfold gmail_demo, mbind, M_bind, perform, sleep, set_attr, print,
    new_events;
  simpl.

(** The next call of the script: it raises, or it returns. *)
Ltac next_call :=
  match goal with
  | |- context [respond rt ?c ?w] =>
      destruct (respond rt c w) as [? [?|?]] eqn:?; simpl
  end.

(** C9, as the code has it.  Replay the seventeen steps of the script
    against the world.  When no library call raises, the run reaches its
    end whatever the calls returned: it has made the seventeen steps,
    printed the success line and nothing else, and ends with status 0.
    When a library call raises, nothing catches it: the run stops at the
    first such call with its exception, having made the steps up to that
    call and printed nothing, and ends with status 1. *)
Theorem gmail_demo_outcome s :
  match first_raise rt (world s) gmail_events with
  | None =>
      (gmail_demo rt s).2 = Ok ()
      ∧ new_events s (gmail_demo rt s).1 = gmail_events
      ∧ new_lines s (gmail_demo rt s).1 = [success_line]
      ∧ exit_status (gmail_demo rt s).2 = 0
  | Some (k, e) =>
      (gmail_demo rt s).2 = Raise (Exc e)
      ∧ new_events s (gmail_demo rt s).1 = take (S k) gmail_events
      ∧ new_lines s (gmail_demo rt s).1 = []
      ∧ exit_status (gmail_demo rt s).2 = 1
  end.
Proof.
  unfold gmail_demo, gmail_events, mbind, M_bind, perform, sleep, set_attr,
    print, new_events, new_lines.
  simpl.
  do 9 (next_call;
        [ rewrite <- ?app_assoc, drop_app_length, drop_all; by split_and! |]).
  rewrite <- ?app_assoc, !drop_app_length.
  repeat match goal with u : () |- _ => destruct u end.
  by split_and!.
Qed.

End MailSenderRun.

Lemma gmail_demo_outcome_witness :
  ((gmail_demo (mock_runtime blank_page) initial).2 = Ok ()
   ∧ new_events initial (gmail_demo (mock_runtime blank_page) initial).1
     = gmail_events
   ∧ new_lines initial (gmail_demo (mock_runtime blank_page) initial).1
     = [success_line]
   ∧ exit_status (gmail_demo (mock_runtime blank_page) initial).2 = 0)
  ∧ ((gmail_demo (mock_runtime failsafe_desktop) initial).2
     = Raise (Exc (Error "FailSafeException"
                     "PyAutoGUI fail-safe triggered from mouse moving to a corner of the screen."))
     ∧ new_events initial
         (gmail_demo (mock_runtime failsafe_desktop) initial).1
       = take 5 gmail_events
     ∧ new_lines initial
         (gmail_demo (mock_runtime failsafe_desktop) initial).1
       = []
     ∧ exit_status (gmail_demo (mock_runtime failsafe_desktop) initial).2
       = 1).
Proof.
  split.
  - exact (gmail_demo_outcome (mock_runtime blank_page) initial).
  - exact (gmail_demo_outcome (mock_runtime failsafe_desktop) initial).
Defined.

(** With the pointer in a corner of the screen the click raises: the run
    ends with status 1 and the success line is not printed. *)
Lemma gmail_demo_fail_safe_exit :
  exit_status (gmail_demo (mock_runtime failsafe_desktop) initial).2 = 1
  ∧ stdout (gmail_demo (mock_runtime failsafe_desktop) initial).1 = []
  ∧ exit_status (gmail_demo (mock_runtime failsafe_desktop) initial).2 ≠ 0.
Proof. vm_compute. split_and!; [reflexivity..|discriminate]. Qed.

Example gmail_demo_prints_success :
  stdout (gmail_demo (mock_runtime blank_page) initial).1 = [success_line].
Proof. vm_compute. reflexivity. Qed.

(** * Further properties of the code *)

(** ** The deduplicator, the merge and their composition *)

Section DedupeAlgebra.
Implicit Types (r : SearchResult) (results news : list SearchResult).
Implicit Types (seen : gset string).

Lemma dedupe_from_app results : ∀ seen news,
  dedupe_from seen (results ++ news)
  = dedupe_from seen results
    ++ dedupe_from (seen ∪ list_to_set (link <$> dedupe_from seen results)) news.
Proof.
  induction results as [|r rest IH]; intros seen news; simpl.
  - by rewrite union_empty_r_L.
  - destruct (_ && _); [|apply IH].
    rewrite IH. csimpl. do 3 f_equal.
    rewrite (comm_L (∪) {[link r]} seen). by rewrite <- (assoc_L (∪)).
Qed.

Lemma dedupe_from_filter (P : SearchResult → Prop)
    `{!∀ r, Decision (P r)} news : ∀ seen,
  (∀ r, r ∈ news → ¬ P r → link r = EmptyString ∨ link r ∈ seen) →
  dedupe_from seen (filter P news) = dedupe_from seen news.
Proof.
  induction news as [|r rest IH]; intros seen Hskip; [done|].
  rewrite filter_cons. destruct (decide (P r)) as [HP|HP]; simpl.
  - destruct (_ && _).
    + f_equal. apply IH. intros r' Hin Hr'.
      destruct (Hskip r') as [?|?]; [by right|done|by left|].
      right. apply elem_of_union. by right.
    + apply IH. intros r' Hin. apply Hskip. by right.
  - rewrite IH; [|intros r' Hin; apply Hskip; by right].
    destruct (Hskip r) as [Hempty|Hseen]; [by left|done| |].
    + by rewrite Hempty.
    + rewrite (bool_decide_eq_false_2 (link r ∉ seen)); [|by intros ?].
      by rewrite andb_false_r.
Qed.

Lemma dedupe_from_fixed results : ∀ seen,
  NoDup (link <$> results) →
  Forall (λ r, link r ≠ EmptyString ∧ link r ∉ seen) results →
  dedupe_from seen results = results.
Proof.
  induction results as [|r rest IH]; intros seen Hnd Hall; [done|].
  csimpl in Hnd. apply NoDup_cons in Hnd as [Hr Hnd].
  apply Forall_cons in Hall as [[Hne Hfresh] Hall]. simpl.
  rewrite (proj2 (truthy_nonempty _) Hne), (bool_decide_eq_true_2 _ Hfresh).
  simpl. f_equal. apply IH; [done|].
  apply Forall_forall. intros r' Hin.
  rewrite Forall_forall in Hall. destruct (Hall r' Hin) as [? ?].
  split; [done|]. intros [Heq%elem_of_singleton|?]%elem_of_union; [|done].
  apply Hr. rewrite <- Heq. by apply list_elem_of_fmap_2.
Qed.

(** X1.  The final deduplication leaves a list as it is exactly when its
    links are pairwise distinct and none is empty; so deduplicating an
    already deduplicated list changes nothing. *)
Theorem final_dedupe_fixed_point results :
  (final_dedupe results = results
   ↔ NoDup (link <$> results) ∧ Forall (λ r, link r ≠ EmptyString) results)
  ∧ final_dedupe (final_dedupe results) = final_dedupe results.
Proof.
  assert (Hfix : ∀ rs, NoDup (link <$> rs) →
                       Forall (λ r, link r ≠ EmptyString) rs →
                       final_dedupe rs = rs).
  { intros rs Hnd Hne. rewrite final_dedupe_from_empty.
    apply dedupe_from_fixed; [done|].
    eapply Forall_impl; [exact Hne|]. intros r Hr. split; [done|].
    apply not_elem_of_empty. }
  split.
  - split; [|intros [? ?]; by apply Hfix].
    intros <-. rewrite final_dedupe_from_empty. split.
    + apply dedupe_from_NoDup.
    + apply Forall_forall. intros r Hin.
      by apply dedupe_from_fresh in Hin as [? _].
  - apply Hfix; rewrite final_dedupe_from_empty.
    + apply dedupe_from_NoDup.
    + apply Forall_forall. intros r Hin.
      by apply dedupe_from_fresh in Hin as [? _].
Qed.

(** X2.  What the merge skips the final deduplication would have dropped
    anyway: deduplicating the merged list gives the same list as
    deduplicating the primary results followed by all the News results. *)
Theorem final_dedupe_merge_news results news :
  final_dedupe (merge_news results news) = final_dedupe (results ++ news).
Proof.
  unfold merge_news. rewrite merge_loop, !final_dedupe_from_empty.
  rewrite !dedupe_from_app. f_equal.
  apply dedupe_from_filter. intros r _ Hin.
  apply dec_stable in Hin. unfold existing_links in Hin.
  apply elem_of_list_to_set in Hin.
  destruct (decide (link r = EmptyString)) as [?|Hne]; [by left|right].
  apply elem_of_union. right. apply elem_of_list_to_set.
  apply dedupe_from_covers; [done|apply not_elem_of_empty|done].
Qed.

End DedupeAlgebra.

(** ** Whitespace *)

Section Strip.

Lemma rstrip_cons c (s : string) :
  PyStr.rstrip (String c s)
  = if PyStr.isspace (String c (PyStr.rstrip s))
    then EmptyString else String c (PyStr.rstrip s).
Proof. reflexivity. Qed.

Lemma rstrip_idempotent (s : string) :
  PyStr.rstrip (PyStr.rstrip s) = PyStr.rstrip s.
Proof.
  induction s as [|c s IH]; [done|].
  rewrite rstrip_cons. destruct (PyStr.isspace _) eqn:Hc; [done|].
  by rewrite rstrip_cons, IH, Hc.
Qed.

(** [rstrip] only removes from the end. *)
Lemma rstrip_prefix (s : string) : ∃ k, s = PyStr.rstrip s +:+ k.
Proof.
  induction s as [|c s [k IH]]; [by exists EmptyString|].
  rewrite rstrip_cons. destruct (PyStr.isspace _).
  - by eexists.
  - exists k. by rewrite append_cons, <- IH.
Qed.

Lemma lstrip_behead (s : string) :
  PyStr.lstrip s
  = match PyStr.behead s with
    | Some s' => PyStr.lstrip s'
    | None => s
    end.
Proof.
  destruct s as [|c [|d [|e s]]]; simpl; try done;
    repeat (destruct (PyStr.isspace _); try done).
Qed.

Lemma behead_shorter (s s' : string) :
  PyStr.behead s = Some s' → (String.length s' < String.length s)%nat.
Proof.
  destruct s as [|c [|d [|e s]]]; simpl; try done;
    repeat (destruct (PyStr.isspace _); try done);
    intros [= <-]; simpl; lia.
Qed.

(** What [lstrip] returns does not begin with whitespace. *)
Lemma lstrip_clean (s : string) : PyStr.behead (PyStr.lstrip s) = None.
Proof.
  remember (String.length s) as n eqn:Hn.
  revert s Hn. induction (lt_wf n) as [n _ IH]. intros s ->.
  rewrite lstrip_behead. destruct (PyStr.behead s) as [s'|] eqn:Hs; [|done].
  eapply IH; [|reflexivity]. by apply behead_shorter.
Qed.

Lemma behead_prefix (p k : string) :
  PyStr.behead (p +:+ k) = None → PyStr.behead p = None.
Proof.
  destruct p as [|c [|d [|e p]]]; rewrite ?append_cons, ?append_nil;
    [done|..]; simpl; destruct k as [|k1 [|k2 k]]; simpl;
    repeat (destruct (PyStr.isspace _); try done).
Qed.

Lemma strip_idempotent (s : string) :
  PyStr.strip (PyStr.strip s) = PyStr.strip s.
Proof.
  unfold PyStr.strip.
  assert (PyStr.behead (PyStr.rstrip (PyStr.lstrip s)) = None) as Hclean.
  { destruct (rstrip_prefix (PyStr.lstrip s)) as [k Hk].
    apply (behead_prefix _ k). rewrite <- Hk. apply lstrip_clean. }
  rewrite (lstrip_behead (PyStr.rstrip _)), Hclean.
  apply rstrip_idempotent.
Qed.

(** [strip] removes the no-break space like any other whitespace. *)
Example strip_no_break_space :
  PyStr.strip (PyStr.bytes [194; 160; 32; 72; 105; 9; 226; 128; 168]%nat)
  = "Hi"
  ∧ PyStr.strip (PyStr.bytes [194; 160; 194; 160]%nat) = EmptyString.
Proof. split; vm_compute; reflexivity. Qed.

End Strip.

(** ** Computations that return without printing *)

Section Yields.
Context {W : Type} (rt : Runtime W).

Lemma yields_ret {A} (a : A) (Φ : A → list event → Prop) :
  Φ a [] → yields (mret a : M W A) Φ.
Proof. intros HΦ s. exists s, a, []. by rewrite app_nil_r. Qed.

Lemma yields_bind {A B} (m : M W A) (f : A → M W B) Φ1
    (Φ : B → list event → Prop) :
  yields m Φ1 →
  (∀ a l1, Φ1 a l1 → yields (f a) (λ b l2, Φ b (l1 ++ l2))) →
  yields (m ≫= f) Φ.
Proof.
  intros Hm Hf s. unfold mbind, M_bind.
  destruct (Hm s) as (s1 & a & l1 & -> & Ht1 & Ho1 & H1).
  destruct (Hf a l1 H1 s1) as (s2 & b & l2 & -> & Ht2 & Ho2 & H2).
  exists s2, b, (l1 ++ l2).
  split_and!; [done|by rewrite Ht2, Ht1, app_assoc|congruence|done].
Qed.

Lemma yields_weaken {A} (m : M W A) (Φ Φ' : A → list event → Prop) :
  (∀ a l, Φ a l → Φ' a l) → yields m Φ → yields m Φ'.
Proof.
  intros HΦ Hm s. destruct (Hm s) as (s' & a & l & ? & ? & ? & ?).
  exists s', a, l. split_and!; [done..|by apply HΦ].
Qed.

Lemma safe_wait_for_selector_yields selector timeout :
  yields (safe_wait_for_selector rt selector timeout)
    (λ _ l, l = [Called (WaitForSelector selector timeout)]).
Proof.
  intros s. unfold safe_wait_for_selector, try_except_Exception, mbind,
    M_bind, perform. simpl.
  destruct (respond rt (WaitForSelector selector timeout) (world s))
    as [w [[]|[]]]; simpl; by eexists _, _, _.
Qed.

Lemma collect_item_yields loc results i :
  yields (collect_item rt loc results i)
    (λ rs l, Forall (λ ev, is_element_read ev = true) l
             ∧ (rs = results ∨ ∃ r, rs = results ++ [r] ∧ stripped r)).
Proof.
  intros s. unfold collect_item, try_except_Exception, mbind, M_bind, perform.
  simpl.
  repeat match goal with
         | |- context [respond rt ?c ?w] =>
             destruct (respond rt c w) as [? [?|?]]; simpl
         end;
  repeat match goal with
         | |- context [if ?b then _ else _] => destruct b; simpl
         end;
  eexists _, _, _;
  (split_and!;
   [ reflexivity
   | simpl; rewrite <- ?app_assoc; reflexivity
   | reflexivity
   | repeat constructor
   | first [ by left
           | right; eexists; split; [reflexivity|apply strip_idempotent] ] ]).
Qed.

Lemma collect_items_yields loc (idx : list Z) : ∀ results,
  yields (for_each idx (collect_item rt loc) results)
    (λ rs l, Forall (λ ev, is_element_read ev = true) l
             ∧ ∃ added, rs = results ++ added ∧ Forall stripped added).
Proof.
  induction idx as [|i idx IH]; intros results; simpl.
  - apply yields_ret. split; [constructor|]. exists []. by rewrite app_nil_r.
  - eapply yields_bind; [apply collect_item_yields|].
    intros rs l1 [Hl1 Hrs]. eapply yields_weaken; [|apply IH].
    intros rs' l2 [Hl2 (added & -> & Hadded)].
    split; [by apply Forall_app|].
    destruct Hrs as [->|(r & -> & Hr)].
    + by exists added.
    + exists (r :: added). split; [by rewrite <- app_assoc|by constructor].
Qed.

End Yields.

(** ** The collector: attempts, retries and titles *)

Section CollectorTrace.
Context {W : Type} (rt : Runtime W).
Implicit Types (results : list SearchResult) (max_items : Z).

Lemma collect_attempt_yields sel max_items results attempt :
  yields (collect_attempt rt sel max_items results attempt)
    (attempt_yields sel max_items results attempt).
Proof.
  assert (Hnone : ∃ added, results = results ++ added ∧ Forall stripped added).
  { exists []. by rewrite app_nil_r. }
  intros s. unfold collect_attempt, try_except_Exception, mbind, M_bind.
  destruct (safe_wait_for_selector_yields rt sel 7000 s)
    as (s1 & found & l1 & -> & Ht1 & Ho1 & ->).
  destruct found; simpl.
  - unfold perform.
    destruct (respond rt (Count (Locator sel)) (world s1)) as [w [e|count]];
      simpl.
    + unfold attempt_yields, sleep.
      destruct (attempt + 1 <? MAX_RETRIES) eqn:Hretry; simpl;
        eexists _, _, _;
        (split_and!;
         [ reflexivity
         | simpl; rewrite Ht1, <- ?app_assoc; reflexivity
         | done
         | done
         | ]); simpl.
      * done.
      * right. exists []. split; [constructor|done].
    + set (s2 := mkState _ _ _).
      destruct (collect_items_yields rt (Locator sel)
                  (range (count `min` (max_items - len results))) results s2)
        as (s3 & rs & l3 & -> & Ht3 & Ho3 & Hl3 & Hadded).
      assert (trace s3
              = trace s ++ Called (WaitForSelector sel 7000)
                           :: Called (Count (Locator sel)) :: l3) as Ht.
      { rewrite Ht3. unfold s2. simpl. by rewrite Ht1, <- !app_assoc. }
      assert (attempt_events sel
                (Called (WaitForSelector sel 7000)
                 :: Called (Count (Locator sel)) :: l3)) as Hev.
      { right. by exists l3. }
      unfold attempt_yields.
      destruct (len rs >=? max_items) eqn:Hfull; simpl; eexists _, _, _;
        (split_and!;
         [ reflexivity | exact Ht | by rewrite Ho3 | done | ]); simpl;
        [|done].
      split; [done|]. apply Z.geb_le in Hfull. lia.
  - unfold attempt_yields. eexists _, _, _.
    split_and!; [reflexivity|exact Ht1|done|done|]. simpl. by left.
Qed.

Lemma collect_attempts_yields sel max_items results :
  yields (collect_attempts rt sel max_items results (range MAX_RETRIES))
    (λ out l,
       (∃ added, out.2 = results ++ added ∧ Forall stripped added)
       ∧ selector_events sel l
       ∧ (out.1 = true → max_items ≤ len out.2)).
Proof.
  change (range MAX_RETRIES) with [0; 1]. cbn [collect_attempts].
  eapply yields_bind; [apply collect_attempt_yields|].
  intros [fl rs] l1 [Hadded Hshape]. simpl in *.
  destruct fl.
  - destruct Hshape as (-> & -> & _).
    eapply yields_bind; [apply collect_attempt_yields|].
    intros [fl rs] l2 [Hadded' Hshape]. simpl in *.
    destruct fl.
    + by destruct Hshape as (_ & _ & ?).
    + apply yields_ret. rewrite app_nil_r. simpl.
      split_and!; [done| |done]. right. by exists l2.
    + apply yields_ret. rewrite app_nil_r. simpl.
      destruct Hshape as [Hev Hfull].
      split_and!; [done| |done]. right. by exists l2.
  - apply yields_ret. rewrite app_nil_r. simpl.
    split_and!; [done|by left|done].
  - apply yields_ret. rewrite app_nil_r. simpl.
    destruct Hshape as [Hev Hfull]. split_and!; [done|by left|done].
Qed.

Lemma collect_selectors_yields max_items (selector_list : list string) :
  ∀ results,
  yields (collect_selectors rt selector_list max_items results)
    (selectors_yield selector_list max_items results).
Proof.
  induction selector_list as [|sel rest IH]; intros results;
    cbn [collect_selectors].
  - apply yields_ret. split; [exists []; by rewrite app_nil_r|].
    exists [], []. split_and!; [done|constructor|done|by left].
  - eapply yields_bind; [apply collect_attempts_yields|].
    intros [returned rs] l1 ((added & Hrs & Hadded) & Hev & Hfull).
    simpl in *. subst rs. destruct returned.
    + apply yields_ret. rewrite app_nil_r.
      split; [by exists added|].
      exists [sel], [l1]. split_and!.
      * by exists rest.
      * constructor; [done|constructor].
      * simpl. by rewrite app_nil_r.
      * right. by apply Hfull.
    + eapply yields_weaken; [|apply IH].
      intros rs l2 ((added' & -> & Hadded') & tried & blocks
                    & Hprefix & Hblocks & -> & Hall).
      split.
      * exists (added ++ added').
        split; [by rewrite app_assoc|by apply Forall_app].
      * exists (sel :: tried), (l1 :: blocks). split_and!.
        -- destruct Hprefix as [k ->]. by exists k.
        -- by constructor.
        -- done.
        -- destruct Hall as [->|?]; [by left|by right].
Qed.


(** X4.  The title of every record the collector returns is free of
    leading and trailing whitespace: stripping it again changes nothing. *)
Theorem collect_search_results_titles_stripped selector_list max_items s :
  ∃ s' results,
    collect_search_results rt selector_list max_items s = (s', Ok results)
    ∧ Forall (λ r, PyStr.strip (title r) = title r) results.
Proof.
  destruct (collect_selectors_yields max_items selector_list [] s)
    as (s' & rs & l & Hrun & _ & _ & (added & -> & Hadded) & _).
  by exists s', added.
Qed.

(** X5.  A selector that does not appear is given up at once, not retried:
    on a page where every wait fails, the collector waits once for each
    selector, in order, does nothing else, and returns the empty list. *)
Theorem collect_search_results_nothing_appears selector_list max_items s :
  (∀ sel timeout w, ∃ w' e,
     respond rt (WaitForSelector sel timeout) w = (w', inl e)) →
  (collect_search_results rt selector_list max_items s).2 = Ok []
  ∧ new_events s (collect_search_results rt selector_list max_items s).1
    = (λ sel, Called (WaitForSelector sel 7000)) <$> selector_list.
Proof.
  intros Hwait. unfold collect_search_results, new_events.
  assert (Hloop : ∀ sels results s0,
            ∃ s1, collect_selectors rt sels max_items results s0
                  = (s1, Ok results)
                  ∧ trace s1
                    = trace s0
                      ++ ((λ sel, Called (WaitForSelector sel 7000)) <$> sels)).
  { induction sels as [|sel rest IH]; intros results s0.
    - exists s0. by rewrite app_nil_r.
    - cbn [collect_selectors].
      change (range MAX_RETRIES) with [0; 1].
      unfold collect_attempts, collect_attempt, safe_wait_for_selector,
        try_except_Exception, mbind, M_bind, perform. simpl.
      destruct (Hwait sel 7000 (world s0)) as (w' & e & ->). simpl.
      destruct e; simpl;
        (set (s1 := mkState _ _ _);
         destruct (IH results s1) as (s2 & -> & Ht2);
         exists s2; split; [done|]; rewrite Ht2; unfold s1; simpl;
         by rewrite <- app_assoc). }
  destruct (Hloop selector_list [] s) as (s1 & -> & Ht).
  simpl. by rewrite Ht, drop_app_length.
Qed.

End CollectorTrace.

(** When counting raises each time, a selector gets its two attempts, with
    the sleep between them. *)
Example collect_search_results_retries_once :
  new_events initial
    (collect_search_results (mock_runtime detached_page) ["h3 > a"] 12
       initial).1
  = failed_attempt "h3 > a"
    ++ [ Called (WaitForSelector "h3 > a" 7000);
         Called (Count (Locator "h3 > a")) ].
Proof. vm_compute. reflexivity. Qed.

Lemma collect_search_results_nothing_appears_witness :
  (collect_search_results (never_appearing busy_page) selectors 12 initial).2
  = Ok []
  ∧ new_events initial
      (collect_search_results (never_appearing busy_page) selectors 12
         initial).1
    = (λ sel, Called (WaitForSelector sel 7000)) <$> selectors.
Proof.
  apply (collect_search_results_nothing_appears (never_appearing busy_page)
           selectors 12 initial).
  intros sel timeout []. by eexists _, _.
Defined.

(** ** The helpers of the scraper *)

Section Helpers.
Context {W : Type} (rt : Runtime W).


(** X6.  [safe_wait_for_selector] never raises and prints nothing: it makes
    the one wait call and returns [True] exactly when that call returned,
    [False] on a timeout and on any other exception. *)
Theorem safe_wait_for_selector_total selector timeout s :
  ∃ s' found,
    safe_wait_for_selector rt selector timeout s = (s', Ok found)
    ∧ new_events s s' = [Called (WaitForSelector selector timeout)]
    ∧ stdout s' = stdout s
    ∧ (found = true
       ↔ ∃ w, respond rt (WaitForSelector selector timeout) (world s)
              = (w, inr ())).
Proof.
  unfold safe_wait_for_selector, try_except_Exception, mbind, M_bind, perform,
    new_events. simpl.
  destruct (respond rt (WaitForSelector selector timeout) (world s))
    as [w [[]|[]]]; simpl; eexists _, _;
    (split_and!; [reflexivity|simpl; by rewrite drop_app_length|done|]);
    split; first [done | by intros [? [=]] | by eauto].
Qed.

(** X7.  [try_click_news_tab] never raises and prints nothing.  It returns
    [True] exactly when the tab was found, the click returned and the page
    settled, having then made these calls and slept one second; when the
    page reports no tab, it makes no click: the lookup is its only call. *)
Theorem try_click_news_tab_total s :
  ∃ s' clicked,
    try_click_news_tab rt s = (s', Ok clicked)
    ∧ stdout s' = stdout s
    ∧ (clicked = true
       ↔ ∃ w n w1 w2,
           respond rt (Count news_tab) (world s) = (w, inr n) ∧ 0 < n
           ∧ respond rt (Click (First news_tab) None) w = (w1, inr ())
           ∧ respond rt (WaitForLoadState "networkidle" 10000) w1
             = (w2, inr ()))
    ∧ (clicked = true → new_events s s' = news_tab_opened)
    ∧ (∀ w n, respond rt (Count news_tab) (world s) = (w, inr n) → n ≤ 0 →
              clicked = false ∧ new_events s s' = [Called (Count news_tab)]).
Proof.
  unfold try_click_news_tab, try_except_Exception, mbind, M_bind, perform,
    sleep, new_events. simpl.
  destruct (respond rt (Count news_tab) (world s)) as [w [e|n]] eqn:Hcount;
    simpl.
  { eexists _, _. split_and!; [reflexivity|done| |done|done].
    split; [done|]. by intros (? & ? & ? & ? & [=] & _). }
  destruct (0 <? n) eqn:Hn; simpl.
  - apply Z.ltb_lt in Hn.
    destruct (respond rt (Click (First news_tab) None) w) as [w1 [e|[]]]
      eqn:Hclick; simpl.
    { eexists _, _. split_and!; [reflexivity|done| |done|].
      - split; [done|]. intros (? & ? & ? & ? & [= <- <-] & _ & Hc & _).
        congruence.
      - intros ? ? [= <- <-] ?. lia. }
    destruct (respond rt (WaitForLoadState "networkidle" 10000) w1)
      as [w2 [e|[]]] eqn:Hload; simpl.
    { eexists _, _. split_and!; [reflexivity|done| |done|].
      - split; [done|].
        intros (? & ? & ? & ? & [= <- <-] & _ & Hc & Hw).
        rewrite Hclick in Hc. injection Hc as <-. congruence.
      - intros ? ? [= <- <-] ?. lia. }
    eexists _, _. split_and!; [reflexivity|done| | |].
    + split; [intros _|done]. by exists w, n, w1, w2.
    + intros _. simpl. rewrite <- !app_assoc. by rewrite drop_app_length.
    + intros ? ? [= <- <-] ?. lia.
  - apply Z.ltb_ge in Hn.
    eexists _, _. split_and!; [reflexivity|done| |done|].
    + split; [done|]. intros (? & ? & ? & ? & [= <- <-] & ? & _). lia.
    + intros ? ? _ _. split; [done|]. simpl. by rewrite drop_app_length.
Qed.

(** X8.  [is_captcha_page] only looks: it prints nothing, and the calls it
    makes are the first one, two or three of: read the URL, count the first
    phrase, count the second.  When the URL holds the marker it asks the
    page nothing more. *)
Theorem is_captcha_page_read_only s :
  let s' := (is_captcha_page rt s).1 in
  stdout s' = stdout s
  ∧ new_events s s' `prefix_of` full_inspection
  ∧ new_events s s' ≠ []
  ∧ (∀ w u, respond rt Url (world s) = (w, inr u) →
            PyStr.contains sorry_marker (PyStr.or_empty u) = true →
            new_events s s' = [Called Url]).
Proof.
  unfold is_captcha_page, try_except_Exception, mbind, M_bind, perform,
    new_events, full_inspection. simpl.
  destruct (respond rt Url (world s)) as [w0 [e|u0]]; simpl.
  { rewrite drop_app_length.
    split_and!; [done|by eexists [_; _]|done|done]. }
  destruct (PyStr.contains _ _) eqn:Hm; simpl.
  { rewrite drop_app_length.
    split_and!; [done|by eexists [_; _]|done|done]. }
  assert (∀ l : list event,
            (∀ w u, (w0, @inr exception _ u0) = (w, inr u) →
                    PyStr.contains sorry_marker (PyStr.or_empty u) = true →
                    l = [Called Url])) as Hno.
  { intros l w u [= <- <-]. by rewrite Hm. }
  destruct (respond rt (Count (Locator robot_phrase)) w0) as [w1 [e|n1]];
    simpl.
  { rewrite <- !app_assoc, drop_app_length.
    split_and!; [done|by eexists [_]|done|apply Hno]. }
  destruct (0 <? n1); simpl.
  { rewrite <- !app_assoc, drop_app_length.
    split_and!; [done|by eexists [_]|done|apply Hno]. }
  destruct (respond rt (Count (Locator traffic_phrase)) w1) as [w2 [e|n2]];
    simpl;
    [|destruct (0 <? n2); simpl];
    rewrite <- !app_assoc, drop_app_length;
    (split_and!; [done|by eexists []|done|apply Hno]).
Qed.

(** X9.  [prompt_manual_solve] makes no library call: it prints its five
    banner lines, then asks once.  The end of input at the prompt is not
    caught: the function raises [EOFError], having printed nothing after
    the banner. *)
Theorem prompt_manual_solve_asks_once s :
  let s' := (prompt_manual_solve rt s).1 in
  new_events s s' = [Asked PROMPT (read_line rt PROMPT (world s)).2]
  ∧ take 5 (new_lines s s') = banner
  ∧ ((read_line rt PROMPT (world s)).2 = EndOfFile →
     (prompt_manual_solve rt s).2
     = Raise (Exc (Error "EOFError" "EOF when reading a line"))
     ∧ new_lines s s' = banner).
Proof.
  unfold prompt_manual_solve, try_except_KeyboardInterrupt, input, mbind,
    M_bind, print, sys_exit, raise, new_events, new_lines. simpl.
  destruct (read_line rt PROMPT (world s)) as [w o]. simpl.
  destruct o; simpl; rewrite <- ?app_assoc, !drop_app_length;
    (split_and!; [done|done|try done]).
Qed.


End Helpers.

(** ** The report *)

Section Report.
Context {W : Type}.

Lemma report_items_print (unique : list SearchResult) : ∀ i (s : state W),
  for_each unique report_item i s
  = (mkState (world s) (trace s) (stdout s ++ listing i unique),
     Ok (i + length unique)%nat).
Proof.
  induction unique as [|r rest IH]; intros i s; simpl.
  - rewrite app_nil_r, Nat.add_0_r. by destruct s.
  - unfold mbind, M_bind, report_item, print. simpl.
    rewrite IH. simpl. rewrite <- !app_assoc. simpl.
    by rewrite Nat.add_succ_r.
Qed.

Lemma listing_length (unique : list SearchResult) : ∀ i,
  length (listing i unique) = (2 * length unique)%nat.
Proof. induction unique as [|r rest IH]; intros i; simpl; [done|]. rewrite IH. lia. Qed.

Lemma listing_lookup (unique : list SearchResult) : ∀ i k r,
  unique !! k = Some r →
  listing i unique !! (2 * k)%nat = Some (title_line (i + k) r)
  ∧ listing i unique !! (1 + 2 * k)%nat = Some (link_line r).
Proof.
  induction unique as [|r0 rest IH]; intros i k r Hk; [done|].
  destruct k as [|k]; simpl in Hk.
  - injection Hk as ->. simpl. by rewrite Nat.add_0_r.
  - destruct (IH (S i) k r Hk) as [Ht Hl].
    replace (2 * S k)%nat with (S (S (2 * k))) by lia.
    replace (1 + S (S (2 * k)))%nat with (S (S (1 + 2 * k))) by lia.
    simpl. replace (i + S k)%nat with (S i + k)%nat by lia.
    split; [exact Ht|exact Hl].
Qed.

(** X11.  [report] only prints: it never raises and leaves the browser
    and the trace of calls alone.  For no result it prints the five lines
    of the diagnostic; otherwise a header with the number of results and,
    for each result in order, a line with its number, counted from 1, and
    its title, then a line with its link. *)
Theorem report_prints (unique : list SearchResult) (s : state W) :
  ∃ lines,
    report unique s
    = (mkState (world s) (trace s) (stdout s ++ lines), Ok ())
    ∧ (unique = [] → lines = no_results_lines)
    ∧ (unique ≠ [] →
       length lines = (1 + 2 * length unique)%nat
       ∧ lines !! 0%nat = Some (found_header (length unique))
       ∧ ∀ k r, unique !! k = Some r →
           lines !! (1 + 2 * k)%nat = Some (title_line (S k) r)
           ∧ lines !! (2 + 2 * k)%nat = Some (link_line r)).
Proof.
  destruct unique as [|r0 rest].
  - exists no_results_lines. split_and!; [|done..].
    unfold report, mbind, M_bind, print. simpl. by rewrite <- !app_assoc.
  - set (unique := r0 :: rest).
    exists (found_header (length unique) :: listing 1 unique).
    split_and!; [|done|].
    + change (report unique s)
        with ((print (found_header (length unique)) ;;
               for_each unique report_item 1%nat ;;
               mret ()) s).
      unfold mbind, M_bind, print. rewrite report_items_print. simpl.
      by rewrite <- app_assoc.
    + intros _. split_and!; [|done|].
      { pose proof (listing_length unique 1) as Hlen.
        change (S (length (listing 1 unique))
                = (1 + 2 * length unique)%nat).
        lia. }
      intros k r Hk. destruct (listing_lookup unique 1 k r Hk) as [Ht Hl].
      split; [exact Ht|exact Hl].
Qed.

End Report.

Lemma report_prints_witness :
  ∃ lines,
    report [mkResult "A" "x"; mkResult "B" "y"] initial
    = (mkState () [] lines, Ok ())
    ∧ lines !! 3%nat = Some (title_line 2 (mkResult "B" "y")).
Proof.
  destruct (report_prints [mkResult "A" "x"; mkResult "B" "y"] initial)
    as (lines & Hrun & _ & Hlist).
  exists lines. split; [exact Hrun|].
  destruct (Hlist ltac:(discriminate)) as (_ & _ & Hk).
  exact (proj1 (Hk 1%nat (mkResult "B" "y") eq_refl)).
Defined.

(** ** The whole run of the scraper *)

Section WholeRun.
Context {W : Type} (rt : Runtime W).

Lemma traced_of_triple {A} lv (m : M W A) (Q : A → Prop) :
  triple lv m Q → traced m (λ _ _, True).
Proof. intros Hm s. destruct (Hm s) as (l & Ht & _). by exists l. Qed.

Lemma closed_last_extend {A} (r : outcome A) l1 l2 :
  closed_last r l2 → closed_last r (l1 ++ l2).
Proof.
  intros Hc Hok. destruct (Hc Hok) as [l' ->]. exists (l1 ++ l').
  by rewrite app_assoc.
Qed.

Lemma closed_last_bind_dep {A B} (m : M W A) (f : A → M W B)
    (Φ1 : outcome A → list event → Prop) :
  traced m Φ1 →
  (∀ a l1, Φ1 (Ok a) l1 → traced (f a) (λ r l2, closed_last r (l1 ++ l2))) →
  traced (m ≫= f) closed_last.
Proof.
  intros Hm Hf s. unfold mbind, M_bind.
  destruct (Hm s) as (l1 & Ht1 & H1).
  destruct (m s) as [s1 [a|e]]; simpl in *.
  - destruct (Hf a l1 H1 s1) as (l2 & Ht2 & H2).
    exists (l1 ++ l2). split; [by rewrite Ht2, Ht1, app_assoc|done].
  - exists l1. split; [done|]. by intros [? ?].
Qed.

Lemma closed_last_bind {A B} lv (m : M W A) (f : A → M W B) Q :
  triple lv m Q → (∀ a, traced (f a) closed_last) →
  traced (m ≫= f) closed_last.
Proof.
  intros Hm Hf. eapply closed_last_bind_dep.
  - eapply traced_of_triple, Hm.
  - intros a l1 _ s. destruct (Hf a s) as (l2 & Ht2 & H2).
    exists l2. split; [done|]. by apply closed_last_extend.
Qed.

Lemma submit_query_false_closed :
  traced (submit_query rt)
    (λ r l, r = Ok false → ∃ l', l = l' ++ [Called ContextClose]).
Proof.
  intros s. unfold submit_query, safe_wait_for_selector,
    try_except_Exception, mbind, M_bind, perform, print. simpl.
  repeat (match goal with
          | |- context [respond rt ?c ?w] =>
              destruct (respond rt c w) as [? [?|?]]; simpl
          end;
          repeat match goal with
                 | e : exception |- _ => destruct e; simpl
                 end);
    eexists; (split; [rewrite <- ?app_assoc; reflexivity|]);
    first [ done | intros _; by apply last_Some ].
Qed.

Lemma main_body_closed_last : traced (main_body rt) closed_last.
Proof.
  unfold main_body.
  eapply closed_last_bind; [apply triple_print|intros _].
  eapply closed_last_bind;
    [apply (triple_perform rt (LaunchPersistentContext _ _ _ _))|intros _].
  eapply closed_last_bind; [apply (triple_perform rt NewPage)|intros _].
  eapply closed_last_bind;
    [apply (triple_perform rt (SetExtraHttpHeaders _ _))|intros _].
  eapply closed_last_bind with (lv := Fallible) (Q := λ _, True).
  { apply triple_try_except.
    - step triple_print. weaken (triple_perform rt (Goto _ _)). done.
    - intros e. weaken triple_print. done. }
  intros _.
  eapply closed_last_bind; [apply captcha_gate_exiting|intros _].
  eapply closed_last_bind_dep; [apply submit_query_false_closed|].
  intros submitted l1 Hsub. destruct submitted; simpl.
  - intros s.
    assert (traced
              (settle rt ;; sleep rt 1000 ;; captcha_gate rt ;;
               print "Collecting search results (safe locators)..." ;;
               results ← collect_search_results rt selectors 12;
               results0 ← augment rt results;
               report (final_dedupe results0) ;;
               print "Closing context (profile kept). Next run will reuse same profile to reduce future CAPTCHAs." ;;
               perform rt ContextClose) closed_last) as Hrest.
    { eapply closed_last_bind; [apply settle_quiet|intros _].
      eapply closed_last_bind; [apply triple_sleep|intros _].
      eapply closed_last_bind; [apply captcha_gate_exiting|intros _].
      eapply closed_last_bind; [apply triple_print|intros _].
      eapply closed_last_bind;
        [apply (collect_search_results_quiet rt selectors 12)|intros results].
      eapply closed_last_bind; [apply augment_quiet|intros results0].
      eapply closed_last_bind; [apply report_quiet|intros _].
      eapply closed_last_bind; [apply triple_print|intros _].
      intros s0. exists [Called ContextClose]. unfold perform.
      destruct (respond rt ContextClose (world s0)) as [w [e|[]]]; simpl;
        (split; [done|]); [by intros [? ?]|intros _; by exists []]. }
    destruct (Hrest s) as (l2 & Ht2 & H2). exists l2. split; [done|].
    by apply closed_last_extend.
  - intros s. exists []. simpl. split; [by rewrite app_nil_r|].
    intros _. rewrite app_nil_r. by apply Hsub.
Qed.

(** X12.  [main] leaves through [sys.exit] only with code 1 and only
    after a prompt was interrupted; and in a run that ended normally no
    prompt was interrupted. *)
Theorem main_sys_exit_only_after_interrupt s :
  (∀ code, (main rt s).2 = Raise (SystemExit code) →
           code = 1 ∧ interrupted (new_events s (main rt s).1) = true)
  ∧ ((main rt s).2 = Ok () →
     interrupted (new_events s (main rt s).1) = false).
Proof.
  unfold main, with_context, ensure, new_events, mbind, M_bind, perform, raise.
  simpl.
  destruct (respond rt SyncPlaywrightEnter (world s)) as [w [e|[]]]; simpl;
    [done|].
  set (s1 := mkState _ _ _).
  destruct (main_body_exiting rt s1) as (l & Htrace & Hres).
  assert (∀ tail, drop (length (trace s))
                    ((trace s1 ++ l) ++ tail)
                  = Called SyncPlaywrightEnter :: l ++ tail) as Hdrop.
  { intros tail. unfold s1. simpl.
    by rewrite <- !app_assoc, drop_app_length. }
  destruct (main_body rt s1) as [s2 [[]|e]]; simpl in *.
  - destruct Hres as [Hquiet _].
    destruct (respond rt SyncPlaywrightExit (world s2)) as [w2 [e|[]]];
      simpl; rewrite Htrace, Hdrop; (split; [done|]);
      [done|intros _; simpl; by rewrite interrupted_app, Hquiet].
  - destruct e as [e| |code]; simpl in Hres; [|done|].
    + by destruct (respond rt SyncPlaywrightExit (world s2))
        as [w2 [e'|[]]].
    + destruct Hres as [Hint ->].
      destruct (respond rt SyncPlaywrightExit (world s2)) as [w2 [e'|[]]];
        simpl; rewrite Htrace, Hdrop; (split; [|done]); [done|].
      intros code [= <-]. split; [done|]. simpl.
      by rewrite interrupted_app, Hint.
Qed.

(** X13.  The [with] block is always left: when entering it raises,
    nothing else is called and that exception ends the run; otherwise,
    however the run ends, its first call enters the block and its last
    call leaves it. *)
Theorem main_leaves_playwright s :
  (∀ w e, respond rt SyncPlaywrightEnter (world s) = (w, inl e) →
          main rt s
          = (mkState w (trace s ++ [Called SyncPlaywrightEnter]) (stdout s),
             Raise (Exc e)))
  ∧ (∀ w, respond rt SyncPlaywrightEnter (world s) = (w, inr ()) →
          ∃ l, new_events s (main rt s).1
               = Called SyncPlaywrightEnter
                 :: (l ++ [Called SyncPlaywrightExit])).
Proof.
  unfold main, with_context, ensure, new_events, mbind, M_bind, perform, raise.
  simpl. split.
  - intros w e ->. done.
  - intros w ->. simpl. set (s1 := mkState _ _ _).
    destruct (main_body_exiting rt s1) as (l & Htrace & _).
    exists l.
    destruct (main_body rt s1) as [s2 [[]|e]]; simpl in *;
      destruct (respond rt SyncPlaywrightExit (world s2)) as [w2 [e'|[]]];
      simpl; rewrite Htrace; unfold s1; simpl;
      by rewrite <- !app_assoc, drop_app_length.
Qed.

(** X14.  A run of [main] that ends normally has closed the browser
    context: its last two calls close the context and leave the [with]
    block.  This holds as well when [main] returns early because the
    search box could not be used. *)
Theorem main_normal_end_closes_context s :
  (main rt s).2 = Ok () →
  ∃ l, new_events s (main rt s).1
       = Called SyncPlaywrightEnter
         :: (l ++ [Called ContextClose; Called SyncPlaywrightExit]).
Proof.
  unfold main, with_context, ensure, new_events, mbind, M_bind, perform, raise.
  simpl.
  destruct (respond rt SyncPlaywrightEnter (world s)) as [w [e|[]]]; simpl;
    [done|].
  set (s1 := mkState _ _ _).
  destruct (main_body_closed_last s1) as (l & Htrace & Hclosed).
  destruct (main_body rt s1) as [s2 [[]|e]]; simpl in *.
  - destruct Hclosed as [l' ->]; [by eexists|].
    destruct (respond rt SyncPlaywrightExit (world s2)) as [w2 [e'|[]]];
      simpl; [done|]. intros _. exists l'.
    rewrite Htrace. unfold s1. simpl.
    by rewrite <- !app_assoc, drop_app_length.
  - by destruct (respond rt SyncPlaywrightExit (world s2)) as [w2 [e'|[]]].
Qed.

(** X15.  An exception before the closing step leaves the browser context
    unreleased: when opening the page raises after the context was
    launched, [main] makes no further call but the one that leaves the
    [with] block, never closes the context, and ends with status 1. *)
Theorem main_new_page_failure_leaks_context s w1 w2 w3 e :
  respond rt SyncPlaywrightEnter (world s) = (w1, inr ()) →
  respond rt (LaunchPersistentContext USER_DATA_DIR HEADLESS
                ["--start-maximized"] (1366, 768)) w1 = (w2, inr ()) →
  respond rt NewPage w2 = (w3, inl e) →
  new_events s (main rt s).1
  = [ Called SyncPlaywrightEnter;
      Called (LaunchPersistentContext USER_DATA_DIR HEADLESS
                ["--start-maximized"] (1366, 768));
      Called NewPage;
      Called SyncPlaywrightExit ]
  ∧ (Called ContextClose ∉ new_events s (main rt s).1)
  ∧ exit_status (main rt s).2 = 1.
Proof.
  intros Henter Hlaunch Hpage.
  unfold main, with_context, ensure, main_body, new_events, mbind, M_bind,
    perform, print, raise. simpl.
  rewrite Henter. simpl. rewrite Hlaunch. simpl. rewrite Hpage. simpl.
  destruct (respond rt SyncPlaywrightExit w3) as [w4 [e'|[]]]; simpl;
    rewrite <- !app_assoc, drop_app_length;
    (split_and!; [done| |done]);
    intros Hin; repeat (apply elem_of_cons in Hin as [[=]|Hin]);
    by apply elem_of_nil in Hin.
Qed.

End WholeRun.

Lemma main_normal_end_closes_context_witness :
  ∃ l, new_events initial (main (mock_runtime blank_page) initial).1
       = Called SyncPlaywrightEnter
         :: (l ++ [Called ContextClose; Called SyncPlaywrightExit]).
Proof.
  apply (main_normal_end_closes_context (mock_runtime blank_page) initial).
  vm_compute. reflexivity.
Defined.

Lemma main_new_page_failure_leaks_context_witness :
  exit_status (main (no_new_page blank_page) initial).2 = 1.
Proof.
  eapply (main_new_page_failure_leaks_context (no_new_page blank_page)
            initial () () ()); reflexivity.
Defined.

(** ** The augmentation step and what reaches the report *)

Section Augmentation.
Context {W : Type} (rt : Runtime W).
Implicit Types (results : list SearchResult).

Lemma augment_appended results s :
  ∃ s' appended,
    augment rt results s = (s', Ok (results ++ appended))
    ∧ len appended ≤ 12
    ∧ Forall (λ r, well_formed r ∧ link r ∉ link <$> results) appended
    ∧ (6 ≤ len results → appended = []).
Proof.
  assert (Hnone : ∀ s' : state W, ∃ s'' appended,
            ((s', Ok results) : state W * outcome (list SearchResult))
            = (s'', Ok (results ++ appended))
            ∧ len appended ≤ 12
            ∧ Forall (λ r, well_formed r ∧ link r ∉ link <$> results) appended
            ∧ (6 ≤ len results → appended = [])).
  { intros s'. exists s', []. rewrite app_nil_r. by split_and!. }
  unfold augment. destruct (len results <? 6) eqn:Hfew; [|apply Hnone].
  apply Z.ltb_lt in Hfew.
  unfold mbind, M_bind, print. simpl. set (s1 := mkState _ _ _).
  destruct (triple_quiet_returns _ _ (try_click_news_tab_quiet rt) s1)
    as (s2 & clicked & -> & _).
  destruct clicked; [|apply Hnone].
  destruct (triple_quiet_returns _ _
              (collect_search_results_quiet rt news_selectors 12) s2)
    as (s3 & news & -> & Hwf & Hlen).
  exists s3, (filter (λ r, link r ∉ existing_links results) news).
  split_and!.
  - unfold merge_news. by rewrite merge_loop.
  - pose proof (length_filter (λ r, link r ∉ existing_links results) news).
    unfold len in *. lia.
  - apply Forall_forall. intros r [Hnew Hin]%list_elem_of_filter. split.
    + rewrite Forall_forall in Hwf. by apply Hwf.
    + intros Hold. apply Hnew. unfold existing_links.
      by apply elem_of_list_to_set.
  - lia.
Qed.

(** X16.  The augmentation step never raises and only appends: it returns
    the primary results followed by at most twelve records, each with a
    non-empty title and link and with a link that no primary result has;
    with six primary results or more it appends nothing. *)
Theorem augment_appends results s :
  ∃ s' appended,
    augment rt results s = (s', Ok (results ++ appended))
    ∧ len appended ≤ 12
    ∧ Forall (λ r, title r ≠ EmptyString ∧ link r ≠ EmptyString
                   ∧ link r ∉ link <$> results) appended
    ∧ (6 ≤ len results → appended = []).
Proof.
  destruct (augment_appended results s)
    as (s' & appended & Hrun & Hlen & Hall & Hsix).
  exists s', appended. split_and!; [done|done| |done].
  eapply Forall_impl; [exact Hall|]. by intros r [[? ?] ?].
Qed.

(** X17.  What [main] hands to the report: collecting with capacity 12
    and then augmenting gives at most 17 records, since the News results
    are merged only into fewer than six primary results; all of them have
    a non-empty title and link, and so do the at most 17 records that
    remain after the final deduplication. *)
Theorem collect_then_augment_bound s :
  ∃ s' results,
    (collect_search_results rt selectors 12 ≫= augment rt) s
    = (s', Ok results)
    ∧ len results ≤ 17
    ∧ len (final_dedupe results) ≤ 17
    ∧ Forall (λ r, title r ≠ EmptyString ∧ link r ≠ EmptyString)
        (final_dedupe results).
Proof.
  unfold mbind, M_bind.
  destruct (triple_quiet_returns _ _
              (collect_search_results_quiet rt selectors 12) s)
    as (s1 & primary & -> & Hwf & Hlen).
  destruct (augment_appended primary s1)
    as (s2 & appended & -> & Hlen' & Hall & Hsix).
  exists s2, (primary ++ appended).
  assert (len (primary ++ appended) ≤ 17) as Hbound.
  { destruct (decide (6 ≤ len primary)) as [Hge|Hlt].
    - rewrite (Hsix Hge), app_nil_r. lia.
    - unfold len in *. rewrite length_app. lia. }
  assert (final_dedupe (primary ++ appended) `sublist_of` primary ++ appended)
    as Hsub by (rewrite final_dedupe_from_empty; apply dedupe_from_sublist).
  split_and!; [done|done| |].
  - apply sublist_length in Hsub. unfold len in *. lia.
  - apply Forall_forall. intros r Hin.
    eapply elem_of_sublist in Hin; [|exact Hsub].
    apply elem_of_app in Hin as [Hin|Hin].
    + rewrite Forall_forall in Hwf. by apply Hwf.
    + rewrite Forall_forall in Hall. by apply Hall.
Qed.

End Augmentation.

Lemma try_click_news_tab_total_witness :
  new_events initial (try_click_news_tab (mock_runtime news_page) initial).1
  = news_tab_opened
  ∧ new_events initial (try_click_news_tab (mock_runtime blank_page) initial).1
    = [Called (Count news_tab)].
Proof.
  split.
  - destruct (try_click_news_tab_total (mock_runtime news_page) initial)
      as (s' & clicked & Hrun & _ & Hiff & Hopened & _).
    rewrite Hrun. apply Hopened, Hiff. exists (), 1, (), ().
    split_and!; [reflexivity|lia|reflexivity|reflexivity].
  - destruct (try_click_news_tab_total (mock_runtime blank_page) initial)
      as (s' & clicked & Hrun & _ & _ & _ & Hnone).
    rewrite Hrun. apply (Hnone () 0); [reflexivity|lia].
Defined.

Lemma is_captcha_page_read_only_witness :
  new_events initial (is_captcha_page (mock_runtime sorry_page) initial).1
  = [Called Url].
Proof.
  eapply (proj2 (proj2 (proj2
            (is_captcha_page_read_only (mock_runtime sorry_page) initial)))).
  - reflexivity.
  - vm_compute. reflexivity.
Defined.

Lemma prompt_manual_solve_asks_once_witness :
  (prompt_manual_solve (mock_runtime (closed_input blank_page)) initial).2
  = Raise (Exc (Error "EOFError" "EOF when reading a line")).
Proof.
  eapply (proj2 (proj2 (prompt_manual_solve_asks_once
                          (mock_runtime (closed_input blank_page)) initial))).
  reflexivity.
Defined.

Lemma main_leaves_playwright_witness :
  ∃ l, new_events initial (main (mock_runtime sorry_page) initial).1
       = Called SyncPlaywrightEnter :: (l ++ [Called SyncPlaywrightExit]).
Proof.
  eapply (proj2 (main_leaves_playwright (mock_runtime sorry_page) initial)).
  reflexivity.
Defined.

Lemma main_sys_exit_only_after_interrupt_witness :
  interrupted (new_events initial (main (mock_runtime sorry_page) initial).1)
  = true
  ∧ interrupted
      (new_events initial (main (mock_runtime blank_page) initial).1)
    = false.
Proof.
  split.
  - apply (proj1 (main_sys_exit_only_after_interrupt
                    (mock_runtime sorry_page) initial) 1).
    vm_compute. reflexivity.
  - apply (proj2 (main_sys_exit_only_after_interrupt
                    (mock_runtime blank_page) initial)).
    vm_compute. reflexivity.
Defined.

Lemma augment_appends_witness :
  ∃ s' appended,
    augment (mock_runtime busy_page)
      (replicate 6 (mkResult "Match report" "https://example.org/report"))
      initial
    = (s', Ok (replicate 6 (mkResult "Match report"
                              "https://example.org/report") ++ appended))
    ∧ appended = [].
Proof.
  destruct (augment_appends (mock_runtime busy_page)
              (replicate 6 (mkResult "Match report"
                              "https://example.org/report")) initial)
    as (s' & appended & Hrun & _ & _ & Hsix).
  exists s', appended. split; [exact Hrun|]. apply Hsix.
  unfold len. simpl. lia.
Defined.
